(** * DynamoDBSessionStore: the readiness gate, the record codec, the CRUD
      operations, the reaper and the table provisioner of [src/lib/index.ts],
      as a shallow embedding.

    The store is a class whose methods are [async] functions: each one awaits
    the readiness gate, talks to the table-storage client and reports through
    a Node-style callback.  The embedding keeps that shape:

    - a computation is a function of the world (table content, log of the
      requests sent, log of the callback invocations, clock) that returns
      normally or throws a JavaScript value;
    - an [async] method is its body from the point where the promise returned
      by [onReady] settles;
    - the store object is its two mutable fields, [state] and
      [onReadyPromises]. *)

From Stdlib Require Import ZArith NArith Lia Ascii DecimalString.
From stdpp Require Import gmap strings list fin_maps.
From Equations Require Import Equations.

(** ** JavaScript values that cross the store's interface *)

(** An [Error] object: what the code reads ([error.name]) and what it builds
    ([new Error(message)]). *)
Record Error := mkError { name : string; message : string }.

(** [session.cookie]: only [expires] is read.  [expires] is [None] for the
    falsy values (undefined, null, false, the empty string) and [Some t] for
    a Date, or a date string, whose time value [new Date(expires).getTime()]
    is the integer [t] (milliseconds since the epoch, negative before it).
    On such integers [Math.floor(t / 1000)] is the floor of the exact
    quotient.  Invalid dates, whose time value is NaN, are left out. *)
Record Cookie := mkCookie { expires : option Z }.

(** The session payload is opaque to the store: it reads [session.cookie]
    (which is [None] when the property is undefined) and hands the object to
    [JSON.stringify]; [JSON.parse] either returns an object or throws. *)
Class Payload := {
  SessionData : Type;
  cookie : SessionData -> option Cookie;
  JSON_stringify : SessionData -> string;
  JSON_parse : string -> Error + SessionData
}.

(** The non-key attributes of a row, as written by the UpdateExpression
    [SET expireTime = :expireTime, expireTime_TTL = :expireTime_TTL,
    session_data = :session]; a JavaScript null is stored as [None].  The
    key attribute [sessionId] is the key of the table map. *)
Record Attributes := mkAttributes {
  expireTime : option Z;
  expireTime_TTL : option Z;
  session_data : string
}.

(** A row as [scan] returns it: [sessionId] and the other attributes. *)
Definition Item : Type := string * Attributes.

(** The requests the operations send; all of them name [this.table]. *)
Inductive Request :=
| GetCommand (sessionId : string)
| UpdateCommand (sessionId : string) (expireTime expireTime_TTL : option Z)
                (session : string)
| DeleteCommand (sessionId : string)
| ScanCommand (currentTime : option Z)
| BatchWriteCommand (deleteRequests : list string).

Inductive Lifecycle := INITIALIZING | INITIALIZED | FAIL.

Section Store.

Context {P : Payload}.

Inductive Value :=
| undefined
| null
| Num (n : Z)
| Sess (s : SessionData)
| Sessions (m : gmap string SessionData)
| Err (e : Error).

(** What the store acts on and what can be observed of it. *)
Record World := mkWorld {
  table : gmap string Attributes;
  requests : list Request;
  calls : list (nat * list Value);
  clock : Z
}.

(** *** Computations: state passing, with [throw] *)

Inductive Completion (A : Type) :=
| Return (a : A)
| Throw (v : Value).
Arguments Return {A} a.
Arguments Throw {A} v.

Definition M (A : Type) : Type := World -> Completion A * World.

Definition ret {A} (a : A) : M A := fun w => (Return a, w).

Definition throw {A} (v : Value) : M A := fun w => (Throw v, w).

Definition bind {A B} (m : M A) (k : A -> M B) : M B :=
  fun w =>
    match m w with
    | (Return a, w') => k a w'
    | (Throw v, w') => (Throw v, w')
    end.

(** [try { m } catch (error) { h error }] *)
Definition try_catch {A} (m : M A) (h : Value -> M A) : M A :=
  fun w =>
    match m w with
    | (Return a, w') => (Return a, w')
    | (Throw v, w') => h v w'
    end.

End Store.

Arguments Return {P A} a.
Arguments Throw {P A} v.

Declare Scope js_scope.
Delimit Scope js_scope with js.
Notation "'let*' x ':=' m 'in' k" := (bind m (fun x => k))
  (at level 10, x binder, m at level 100, k at level 200) : js_scope.
Notation "m ';;' k" := (bind m (fun _ => k))
  (at level 100, k at level 200, right associativity) : js_scope.
Notation "'try' m 'catch' h" := (try_catch m h)
  (at level 10, m at level 200, h at level 200) : js_scope.

(** ** The table-storage client, the callbacks and the clock *)

Section Client.

Context {P : Payload}.

(** The environment may refuse a request (transport, permission, throttling
    or validation failure): [fault req = Some e] makes the request throw [e]
    and leaves the table as it is. *)
Variable fault : Request -> option Error.

Local Open Scope js_scope.

Definition call {A} (req : Request)
    (serve : gmap string Attributes -> A * gmap string Attributes) : M A :=
  fun w =>
    let sent := requests w ++ [req] in
    match fault req with
    | Some e => (Throw (Err e), mkWorld (table w) sent (calls w) (clock w))
    | None =>
        let (a, t) := serve (table w) in
        (Return a, mkWorld t sent (calls w) (clock w))
    end.

(** [this.client.send(new GetCommand({TableName, Key: {sessionId}}))];
    the result is [getResult.Item]. *)
Definition send_GetCommand (sessionId : string) : M (option Attributes) :=
  call (GetCommand sessionId) (fun t => (t !! sessionId, t)).

(** [this.client.send(new UpdateCommand(updateParams))]: the row is created
    when the key is new, and its three attributes are set. *)
Definition send_UpdateCommand (sid : string) (expireTime expireTime_TTL : option Z)
    (session : string) : M unit :=
  call (UpdateCommand sid expireTime expireTime_TTL session)
       (fun t => (tt, <[sid := mkAttributes expireTime expireTime_TTL session]> t)).

(** [this.client.delete({TableName, Key: {sessionId: sid}})] *)
Definition client_delete (sid : string) : M unit :=
  call (DeleteCommand sid) (fun t => (tt, delete sid t)).

(** The FilterExpression [#expireTime < :currentTime]: a row matches when
    its [expireTime] is a number below [currentTime]; a null never does. *)
Definition matches (currentTime : option Z) (item : Item) : bool :=
  match currentTime with
  | None => true
  | Some t =>
      match expireTime item.2 with
      | Some e => (e <? t)%Z
      | None => false
      end
  end.

(** [this.client.scan(scanParams)]; the result is [scanResult.Items].
    This is a Scan call whose one page holds the whole table. *)
Definition client_scan (currentTime : option Z) : M (list Item) :=
  call (ScanCommand currentTime)
       (fun t => (filter (fun item => matches currentTime item = true)
                         (map_to_list t), t)).

(** A Scan call in general.  It reads one page: the first rows of the
    table, in the storage's order, as many as the storage puts in a page
    ([page t] rows of the table [t]; DynamoDB fills a page up to 1 MB); the
    filter applies to the rows read, and the rows that match are
    [scanResult.Items].  The code calls [scan] once and never asks for the
    page after [LastEvaluatedKey]. *)
Variable page : gmap string Attributes -> nat.

Definition scanned (t : gmap string Attributes) : list Item :=
  take (page t) (map_to_list t).

Definition client_scan_paged (currentTime : option Z) : M (list Item) :=
  call (ScanCommand currentTime)
       (fun t => (filter (fun item => matches currentTime item = true)
                         (scanned t), t)).

(** [this.client.batchWrite({RequestItems: {[this.table]: deleteRequests}})] *)
Definition client_batchWrite (deleteRequests : list string) : M unit :=
  call (BatchWriteCommand deleteRequests)
       (fun t => (tt, foldr delete t deleteRequests)).

(** [callback(args)] *)
Definition invoke (callback : nat) (args : list Value) : M unit :=
  fun w =>
    (Return tt,
     mkWorld (table w) (requests w) (calls w ++ [(callback, args)]) (clock w)).

(** [callback?.(args)] and [callback && callback(args)] *)
Definition invoke_opt (callback : option nat) (args : list Value) : M unit :=
  match callback with
  | Some c => invoke c args
  | None => ret tt
  end.

(** [Date.now()] *)
Definition Date_now : M Z := fun w => (Return (clock w), w).

(** [JSON.parse(text)] *)
Definition parse (text : string) : M SessionData :=
  match JSON_parse text with
  | inl e => throw (Err e)
  | inr session => ret session
  end.

(** *** Promises *)

Inductive Settled :=
| Fulfilled (v : Value)
| Rejected (reason : Value).

Definition await (p : Settled) : M Value :=
  match p with
  | Fulfilled v => ret v
  | Rejected reason => throw reason
  end.

End Client.

(** ** The store: [class DynamoDBSessionStore] *)

Module DynamoDBSessionStore.

Section Methods.

Context {P : Payload}.
Variable fault : Request -> option Error.

Local Open Scope js_scope.

(** The object's mutable fields, and the world it lives in.  An entry of
    [onReadyPromises] is the [resolve] function of a promise returned by
    [onReady]: applied to a value, it fulfils the promise with that value and
    so runs whatever awaits it.

    Scheduling: an operation that gets past the gate runs to its end before
    the next one starts, the storage serving each request as it is sent; the
    waiters released together run in the order of the queue.  Callbacks are
    recorded; they do not throw. *)
Record Sys := mkSys {
  state : Lifecycle;
  onReadyPromises : list (Value -> M unit);
  world : World
}.

(** [new DynamoDBSessionStore(options)], up to the provisioning it starts. *)
Definition constructor (w : World) : Sys := mkSys INITIALIZING [] w.

(** [await this.onReady()] followed by [k]: the executor runs at once; it
    resolves, rejects (with no reason), or stores [resolve]. *)
Definition onReady (k : Settled -> M unit) (s : Sys) : Sys :=
  match state s with
  | INITIALIZED =>
      mkSys (state s) (onReadyPromises s) (k (Fulfilled undefined) (world s)).2
  | FAIL =>
      mkSys (state s) (onReadyPromises s) (k (Rejected undefined) (world s)).2
  | INITIALIZING =>
      mkSys (state s)
            (onReadyPromises s ++ [fun value => k (Fulfilled value)])
            (world s)
  end.

Definition resolveReadyPromises (s : Sys) : Sys :=
  mkSys (state s) []
        (foldl (fun w resolve => (resolve undefined w).2)
               (world s) (onReadyPromises s)).

Definition rejectReadyPromises (error : Value) (s : Sys) : Sys :=
  mkSys (state s) []
        (foldl (fun w resolve => (resolve error w).2)
               (world s) (onReadyPromises s)).

(** The two handlers the constructor chains on [createTableIfNotExists()]. *)
Definition provisioned (r : Completion unit) (s : Sys) : Sys :=
  match r with
  | Return _ =>
      resolveReadyPromises (mkSys INITIALIZED (onReadyPromises s) (world s))
  | Throw error =>
      rejectReadyPromises error (mkSys FAIL (onReadyPromises s) (world s))
  end.

(** [expires ? new Date(expires).getTime() : null] *)
Definition getTime_or_null (expires : option Z) : option Z :=
  match expires with
  | Some t => Some t
  | None => None
  end.

(** [expireTime ? Math.floor(expireTime / 1000) : null]: the number 0 is
    falsy. *)
Definition floor_or_null (expireTime : option Z) : option Z :=
  match expireTime with
  | Some t => if (t =? 0)%Z then None else Some (t / 1000)%Z
  | None => None
  end.

Definition get (sessionId : string) (callback : nat) (ready : Settled)
    : M unit :=
  try (await ready ;;
       let* getResult := send_GetCommand fault sessionId in
       match getResult with
       | Some item =>
           let* session := parse (session_data item) in
           invoke callback [null; Sess session]
       | None => invoke callback [null; null]
       end)
  catch (fun error => invoke callback [error; null]).

Definition set (sid : string) (session : SessionData)
    (callback : option nat) (ready : Settled) : M unit :=
  try (await ready ;;
       let expireTime :=
         getTime_or_null (match cookie session with
                          | Some c => expires c
                          | None => None
                          end) in
       let expireTime_TTL := floor_or_null expireTime in
       send_UpdateCommand fault sid expireTime expireTime_TTL
                          (JSON_stringify session) ;;
       invoke_opt callback [])
  catch (fun error => invoke_opt callback [error]).

Definition destroy (sid : string) (callback : option nat) (ready : Settled)
    : M unit :=
  try (await ready ;;
       let* getResult := send_GetCommand fault sid in
       match getResult with
       | Some _ =>
           client_delete fault sid ;;
           invoke_opt callback []
       | None =>
           invoke_opt callback [Err (mkError "Error" "Not found session ID")]
       end)
  catch (fun error => invoke_opt callback [error]).

Definition length (callback : nat) (ready : Settled) : M unit :=
  try (await ready ;;
       let* result := client_scan fault None in
       invoke callback [null; Num (Z.of_nat (List.length result))])
  catch (fun error => invoke callback [error]).

(** Reading [session.cookie.expires] when [session.cookie] is undefined. *)
Definition TypeError_expires : Error :=
  mkError "TypeError" "Cannot read properties of undefined (reading 'expires')".

Definition touch (sid : string) (session : SessionData)
    (callback : option nat) (ready : Settled) : M unit :=
  try (await ready ;;
       let* c := match cookie session with
                 | Some c => ret c
                 | None => throw (Err TypeError_expires)
                 end in
       let expireTime := getTime_or_null (expires c) in
       let expireTime_TTL := floor_or_null expireTime in
       send_UpdateCommand fault sid expireTime expireTime_TTL
                          (JSON_stringify session) ;;
       invoke_opt callback [])
  catch (fun error => invoke_opt callback [error]).

Definition reap (callback : option nat) (ready : Settled) : M unit :=
  try (await ready ;;
       let* currentTime := Date_now in
       let* scanResult := client_scan fault (Some currentTime) in
       let deleteRequests := map fst scanResult in
       client_batchWrite fault deleteRequests ;;
       invoke_opt callback [])
  catch (fun error => invoke_opt callback [error]).

(** [result.Items?.forEach(item => sessions[item.sessionId] =
    JSON.parse(item.session_data))] *)
Fixpoint forEach_parse (items : list Item) (sessions : gmap string SessionData)
    : M (gmap string SessionData) :=
  match items with
  | [] => ret sessions
  | item :: rest =>
      let* session := parse (session_data item.2) in
      forEach_parse rest (<[item.1 := session]> sessions)
  end.

Definition all (callback : nat) (ready : Settled) : M unit :=
  try (await ready ;;
       let* result := client_scan fault None in
       let* sessions := forEach_parse result ∅ in
       invoke callback [null; Sessions sessions])
  catch (fun error => invoke callback [error]).

(** *** The operations that scan, with the page of the Scan call

    [length], [reap] and [all] above take the answer of [scan] for the whole
    table; these are the same bodies over a Scan call that reads one page. *)

Variable page : gmap string Attributes -> nat.

Definition length_paged (callback : nat) (ready : Settled) : M unit :=
  try (await ready ;;
       let* result := client_scan_paged fault page None in
       invoke callback [null; Num (Z.of_nat (List.length result))])
  catch (fun error => invoke callback [error]).

Definition reap_paged (callback : option nat) (ready : Settled) : M unit :=
  try (await ready ;;
       let* currentTime := Date_now in
       let* scanResult := client_scan_paged fault page (Some currentTime) in
       let deleteRequests := map fst scanResult in
       client_batchWrite fault deleteRequests ;;
       invoke_opt callback [])
  catch (fun error => invoke_opt callback [error]).

Definition all_paged (callback : nat) (ready : Settled) : M unit :=
  try (await ready ;;
       let* result := client_scan_paged fault page None in
       let* sessions := forEach_parse result ∅ in
       invoke callback [null; Sessions sessions])
  catch (fun error => invoke callback [error]).

End Methods.

(** *** Provisioning: [createTableIfNotExists] and its helpers *)

(** [TableStatus] and [TimeToLiveStatus] of the client library. *)
Inductive TableStatus :=
| ACTIVE | ARCHIVED | ARCHIVING | CREATING | DELETING
| INACCESSIBLE_ENCRYPTION_CREDENTIALS | UPDATING.

Inductive TimeToLiveStatus := DISABLED | DISABLING | ENABLED | ENABLING.

(** One round of the polling loop, as the environment decides it: how long
    the DescribeTable request takes, what it yields (an error thrown, or
    [result.Table.TableStatus]), and by how much the 1000 ms timer that
    follows fires late.  Durations are in milliseconds. *)
Record Poll := mkPoll {
  elapsed : N;
  reply : Error + TableStatus;
  late : N
}.

(** What the service answers during provisioning. *)
Record Service := mkService {
  DescribeTable : Error + unit;
  DescribeTimeToLive : Error + option TimeToLiveStatus;
  UpdateTimeToLive : Error + unit;
  CreateTable : Error + unit;
  entered : Z;
  polls : nat -> Poll
}.

(** How [waitUntilTableExists] ended: its completion, the clock at that
    point, and the number of DescribeTable requests it sent. *)
Record Waited {P : Payload} := mkWaited {
  outcome : Completion unit;
  finished : Z;
  sent : nat
}.
Arguments mkWaited {P} outcome finished sent.

Section Provisioning.

Context {P : Payload}.

(** [this.table] *)
Variable TableName : string.
Variable svc : Service.

Definition timed_out : Value :=
  Err (mkError "Error"
         ("Timed out waiting for table " ++ TableName ++ " to exist")).

(** The [while (Date.now() < endTime)] loop, entered for the [i]-th time
    with the clock at [now]. *)
Equations? waitUntilTableExists_loop (endTime : Z) (i : nat) (now : Z)
    : Waited by wf (Z.to_nat (endTime - now)) lt :=
  waitUntilTableExists_loop endTime i now with Z_lt_dec now endTime => {
    | left _ =>
        let answered := (now + Z.of_N (elapsed (polls svc i)))%Z in
        match reply (polls svc i) with
        | inr ACTIVE => mkWaited (Return tt) answered (S i)
        | inr DELETING
        | inr INACCESSIBLE_ENCRYPTION_CREDENTIALS =>
            mkWaited (Throw timed_out) answered (S i)
        | _ =>
            waitUntilTableExists_loop endTime (S i)
              (answered + 1000 + Z.of_N (late (polls svc i)))%Z
        end;
    | right _ => mkWaited (Throw timed_out) now i }.
Proof. all: lia. Qed.

Definition waitUntilTableExists (timeout : option Z) (startTime : Z)
    : Waited :=
  let timeout := default 6000%Z timeout in
  let endTime := (startTime + timeout)%Z in
  waitUntilTableExists_loop endTime 0 startTime.

Definition updateTableTTL : Completion unit :=
  match DescribeTimeToLive svc with
  | inl error => Throw (Err error)
  | inr ttlStatus =>
      match ttlStatus with
      | Some DISABLED | Some DISABLING =>
          match UpdateTimeToLive svc with
          | inl error => Throw (Err error)
          | inr _ => Return tt
          end
      | _ => Return tt
      end
  end.

Definition createTableIfNotExists : Completion unit :=
  let attempt :=
    match DescribeTable svc with
    | inl error => Throw (Err error)
    | inr _ => updateTableTTL
    end in
  match attempt with
  | Return _ => Return tt
  | Throw (Err error) =>
      if String.eqb (name error) "ResourceNotFoundException" then
        match CreateTable svc with
        | inl e => Throw (Err e)
        | inr _ => outcome (waitUntilTableExists None (entered svc))
        end
      else Throw (Err error)
  | Throw v => Throw v
  end.

End Provisioning.

End DynamoDBSessionStore.

Import DynamoDBSessionStore.

(** ** A concrete payload, for the examples

    A session is its cookie and a user name.  It is written as one line of
    text: a tag for the cookie ([U]: no cookie, [N]: no expiry, [D]: an
    expiry, followed by its decimal time value and a semicolon), then the
    user name. *)

Record Login := mkLogin { login_cookie : option Cookie; user : string }.

Fixpoint upto_semicolon (text : string) : option (string * string) :=
  match text with
  | EmptyString => None
  | String c rest =>
      if Ascii.eqb c ";"%char then Some (EmptyString, rest)
      else match upto_semicolon rest with
           | Some (digits, more) => Some (String c digits, more)
           | None => None
           end
  end.

Definition Login_print (session : Login) : string :=
  match login_cookie session with
  | None => "U" ++ user session
  | Some (mkCookie None) => "N" ++ user session
  | Some (mkCookie (Some t)) =>
      "D" ++ NilZero.string_of_int (Z.to_int t) ++ ";" ++ user session
  end.

Definition SyntaxError : Error := mkError "SyntaxError" "Unexpected token".

Definition Login_read (text : string) : Error + Login :=
  match text with
  | String "U"%char rest => inr (mkLogin None rest)
  | String "N"%char rest => inr (mkLogin (Some (mkCookie None)) rest)
  | String "D"%char rest =>
      match upto_semicolon rest with
      | Some (digits, more) =>
          match NilZero.int_of_string digits with
          | Some d => inr (mkLogin (Some (mkCookie (Some (Z.of_int d)))) more)
          | None => inl SyntaxError
          end
      | None => inl SyntaxError
      end
  | _ => inl SyntaxError
  end.

#[export] Instance Login_payload : Payload := {|
  SessionData := Login;
  cookie := login_cookie;
  JSON_stringify := Login_print;
  JSON_parse := Login_read
|}.

(** ** Inputs of the examples *)

(** A storage that accepts every request. *)
Definition no_fault : Request -> option Error := fun _ => None.

(** A world for the examples: an empty table, nothing sent or reported
    yet, the clock at 5000 ms. *)
Definition w0 : World := mkWorld ∅ [] [] 5000.

Definition ann : Login := mkLogin (Some (mkCookie (Some 1500%Z))) "ann".
Definition bob : Login := mkLogin (Some (mkCookie (Some 0%Z))) "bob".
Definition eve : Login := mkLogin None "eve".
Definition joe : Login := mkLogin (Some (mkCookie None)) "joe".


(** One expired record, one that never expires, one that expires later. *)
Definition w3 : World :=
  mkWorld
    (list_to_map
       [("a", mkAttributes (Some 1500%Z) (Some 1%Z) "D1500;ann");
        ("b", mkAttributes None None "Ueve");
        ("c", mkAttributes (Some 9000%Z) (Some 9%Z) "D9000;joe")])
    [] [] 5000.

(** ** Vocabulary of the properties *)

(** The keys [reap] asks to delete: those of the rows the scan matches. *)
Definition reaped {P : Payload} (w : World) : list string :=
  map fst (filter (fun item => matches (Some (clock w)) item = true)
                  (map_to_list (table w))).



(** The clock when the loop of [waitUntilTableExists], entered at
    [startTime], comes to its test for the [i]-th time (counting from 0), if
    it gets that far: each earlier round took the time of its request, the
    1000 ms of the timer, and the timer's lateness. *)
Fixpoint round_start (svc : Service) (startTime : Z) (i : nat) : Z :=
  match i with
  | O => startTime
  | S j =>
      (round_start svc startTime j + Z.of_N (elapsed (polls svc j)) + 1000
       + Z.of_N (late (polls svc j)))%Z
  end.

(** The clock when the request of round [i] is answered. *)
Definition answered (svc : Service) (startTime : Z) (i : nat) : Z :=
  (round_start svc startTime i + Z.of_N (elapsed (polls svc i)))%Z.

(** The answers that end the loop, and the others. *)
Definition active (r : Error + TableStatus) : bool :=
  match r with
  | inr ACTIVE => true
  | _ => false
  end.

Definition terminal (r : Error + TableStatus) : bool :=
  match r with
  | inr DELETING | inr INACCESSIBLE_ENCRYPTION_CREDENTIALS => true
  | _ => false
  end.

Definition polls_on (r : Error + TableStatus) : bool :=
  negb (active r) && negb (terminal r).

(** The runs of the loop of [waitUntilTableExists], told round by round:
    [round TableName svc endTime i now r] when the loop, coming to its test
    for the [i]-th time with the clock at [now], ends as [r]. *)
Inductive round {P : Payload} (TableName : string) (svc : Service)
    (endTime : Z) : nat -> Z -> Waited -> Prop :=
| round_deadline i now :
    (endTime <= now)%Z ->
    round TableName svc endTime i now
          (mkWaited (Throw (timed_out TableName)) now i)
| round_active i now :
    (now < endTime)%Z ->
    active (reply (polls svc i)) = true ->
    round TableName svc endTime i now
          (mkWaited (Return tt) (now + Z.of_N (elapsed (polls svc i)))%Z (S i))
| round_terminal i now :
    (now < endTime)%Z ->
    terminal (reply (polls svc i)) = true ->
    round TableName svc endTime i now
          (mkWaited (Throw (timed_out TableName))
                    (now + Z.of_N (elapsed (polls svc i)))%Z (S i))
| round_again i now r :
    (now < endTime)%Z ->
    polls_on (reply (polls svc i)) = true ->
    round TableName svc endTime (S i)
          (now + Z.of_N (elapsed (polls svc i)) + 1000
           + Z.of_N (late (polls svc i)))%Z r ->
    round TableName svc endTime i now r.

(** A missing table that stays in creation, each request taking 1 ms. *)
Definition creating_forever : Service :=
  mkService (inl (mkError "ResourceNotFoundException" "no such table"))
            (inr None) (inr tt) (inr tt) 0
            (fun _ => mkPoll 1 (inr CREATING) 0).

(** A missing table that is active at the third request. *)
Definition active_at_third : Service :=
  mkService (inl (mkError "ResourceNotFoundException" "no such table"))
            (inr None) (inr tt) (inr tt) 0
            (fun i => mkPoll 20
                        (inr (if (i <? 2)%nat then CREATING else ACTIVE)) 3).

(** A service that refuses the first DescribeTable request. *)
Definition denied : Error := mkError "AccessDeniedException" "not authorized".

Definition access_denied : Service :=
  mkService (inl denied) (inr None) (inr tt) (inr tt) 0
            (fun _ => mkPoll 1 (inr CREATING) 0).



(** Pages that hold the whole table, and pages of two rows. *)
Definition whole_table : gmap string Attributes -> nat := fun t => size t.

Definition two_rows : gmap string Attributes -> nat := fun _ => 2%nat.


(** The statuses for which [updateTableTTL] enables the native expiry. *)
Definition ttl_is_off (ttlStatus : option TimeToLiveStatus) : bool :=
  match ttlStatus with
  | Some DISABLED | Some DISABLING => true
  | _ => false
  end.

(** A storage that refuses every request, and one that answers the reads
    and refuses the writes. *)
Definition refuse_all : Request -> option Error := fun _ => Some denied.

Definition refuse_writes : Request -> option Error :=
  fun req => match req with
             | GetCommand _ | ScanCommand _ => None
             | _ => Some denied
             end.

(** An existing table whose native expiry is enabled; no other request
    would be accepted. *)
Definition ttl_enabled : Service :=
  mkService (inr tt) (inr (Some ENABLED)) (inl denied) (inl denied) 0
            (fun _ => mkPoll 1 (inr DELETING) 0).

(** An existing table whose native expiry is disabled and may not be
    enabled. *)
Definition ttl_update_denied : Service :=
  mkService (inr tt) (inr (Some DISABLED)) (inl denied) (inr tt) 0
            (fun _ => mkPoll 1 (inr ACTIVE) 0).

(** A table with one record whose payload does not parse. *)
Definition w_corrupt : World :=
  mkWorld {[ "sid" := mkAttributes None None "garbled" ]} [] [] 5000.

(** * Properties *)

(** ** Requests *)

Section Calls.

Context {P : Payload}.
Variable fault : Request -> option Error.

Lemma call_accepted {A} req (serve : gmap string Attributes -> A * _) w :
  fault req = None ->
  call fault req serve w =
    (Return (serve (table w)).1,
     mkWorld (serve (table w)).2 (requests w ++ [req]) (calls w) (clock w)).
Proof.
  intros Hok. unfold call. rewrite Hok. now destruct (serve (table w)).
Qed.

Lemma call_refused {A} req (serve : gmap string Attributes -> A * _) w e :
  fault req = Some e ->
  call fault req serve w =
    (Throw (Err e),
     mkWorld (table w) (requests w ++ [req]) (calls w) (clock w)).
Proof. intros Hko. unfold call. now rewrite Hko. Qed.

End Calls.

(** ** The record codec *)

Lemma floor_or_null_nonzero t :
  t <> 0%Z -> floor_or_null (Some t) = Some (t / 1000)%Z.
Proof.
  intros Ht. unfold floor_or_null.
  destruct (Z.eqb_spec t 0); [contradiction | reflexivity].
Qed.

Lemma floor_or_null_null : floor_or_null None = None.
Proof. reflexivity. Qed.

Section Upsert.

Context {P : Payload}.
Variable fault : Request -> option Error.

(** What [set] does once past the gate, when the storage accepts the
    update. *)
Lemma set_accepted sid session callback v w :
  let e := getTime_or_null (match cookie session with
                            | Some c => expires c
                            | None => None
                            end) in
  let text := JSON_stringify session in
  fault (UpdateCommand sid e (floor_or_null e) text) = None ->
  set fault sid session callback (Fulfilled v) w =
    invoke_opt callback []
      (mkWorld (<[sid := mkAttributes e (floor_or_null e) text]> (table w))
               (requests w ++ [UpdateCommand sid e (floor_or_null e) text])
               (calls w) (clock w)).
Proof.
  intros e text Hok. unfold set, try_catch, bind, await, ret.
  unfold send_UpdateCommand. fold e. fold text.
  rewrite (call_accepted fault _ _ _ Hok). simpl.
  now destruct callback.
Qed.

(** With a cookie, [touch] runs the very code of [set]. *)
Lemma touch_as_set sid session callback ready w c :
  cookie session = Some c ->
  touch fault sid session callback ready w =
  set fault sid session callback ready w.
Proof.
  intros Hc. unfold touch, set, try_catch, bind. rewrite Hc.
  destruct (await ready w) as [[?|?] ?]; reflexivity.
Qed.

(** Without one, it throws before any request is built. *)
Lemma touch_no_cookie sid session callback v w :
  cookie session = None ->
  touch fault sid session callback (Fulfilled v) w =
  invoke_opt callback [Err TypeError_expires] w.
Proof.
  intros Hc. unfold touch, try_catch, bind, await, ret, throw.
  now rewrite Hc.
Qed.

End Upsert.

(** ** The gate, seen from one operation *)

Section Gate.

Context {P : Payload}.

Lemma onReady_INITIALIZED k s :
  state s = INITIALIZED ->
  onReady k s =
    mkSys INITIALIZED (onReadyPromises s) (k (Fulfilled undefined) (world s)).2.
Proof. intros Hs. unfold onReady. now rewrite Hs. Qed.

Lemma onReady_FAIL k s :
  state s = FAIL ->
  onReady k s =
    mkSys FAIL (onReadyPromises s) (k (Rejected undefined) (world s)).2.
Proof. intros Hs. unfold onReady. now rewrite Hs. Qed.

(** While the store is initialising an operation only queues its
    [resolve]: it sends nothing and reports nothing. *)
Lemma onReady_INITIALIZING k s :
  state s = INITIALIZING ->
  onReady k s =
    mkSys INITIALIZING
          (onReadyPromises s ++ [fun value => k (Fulfilled value)])
          (world s).
Proof. intros Hs. unfold onReady. now rewrite Hs. Qed.

End Gate.

(** ** Expiry fields of the stored record (C4) *)

(** Away from the epoch the two fields go together. *)
Lemma set_expiry_pair {P : Payload} fault sid session callback v w :
  let e := match cookie session with
           | Some c => expires c
           | None => None
           end in
  e <> Some 0%Z ->
  fault (UpdateCommand sid e (floor_or_null e) (JSON_stringify session))
    = None ->
  exists row,
    table (set fault sid session callback (Fulfilled v) w).2 !! sid = Some row /\
    expireTime row = e /\
    expireTime_TTL row = (fun t => (t / 1000)%Z) <$> e.
Proof.
  intros e He Hok.
  assert (Hg : getTime_or_null e = e) by now destruct e.
  pose proof (set_accepted fault sid session callback v w) as Hset.
  cbv zeta in Hset. fold e in Hset. rewrite Hg in Hset.
  rewrite (Hset Hok).
  exists (mkAttributes e (floor_or_null e) (JSON_stringify session)).
  split.
  - destruct callback; simpl; apply lookup_insert_eq.
  - split; [reflexivity|]. cbn [expireTime_TTL].
    destruct e as [t|]; [|reflexivity].
    rewrite floor_or_null_nonzero by congruence. reflexivity.
Qed.

(** C4, at the input where the code departs from it.  A session whose cookie
    expires at the epoch itself (time value 0 ms) is stored by [set], and by
    [touch], with [expireTime] 0 and a null [expireTime_TTL]: the test
    [expireTime ? ... : null] takes the number 0 for an absent expiry, so the
    record has one expiry field without the other and [expireTime_TTL] is
    not [floor(expireTime / 1000)]. *)
Theorem epoch_expiry_stored_without_ttl :
  table (world (onReady (set no_fault "sid" bob None) (mkSys INITIALIZED [] w0)))
    !! "sid" = Some (mkAttributes (Some 0%Z) None "D0;bob") /\
  table (world (onReady (touch no_fault "sid" bob None) (mkSys INITIALIZED [] w0)))
    !! "sid" = Some (mkAttributes (Some 0%Z) None "D0;bob").
Proof. split; vm_compute; reflexivity. Qed.

(** ** [touch] against [set] (C5, C10) *)

(** C10.  On an initialised store, [touch] with a session that has no
    [cookie] property reports the TypeError of reading
    [session.cookie.expires] to its callback and sends nothing to the
    storage, whose table stays as it was; [set] with the same session sends
    the update, which stores the record with both expiry fields null, and
    reports success (a call with no argument) when the storage accepts it. *)
Theorem touch_without_cookie_diverges_from_set {P : Payload}
    (fault : Request -> option Error) (s : Sys) (sid : string)
    (session : SessionData) (cb : nat) :
  state s = INITIALIZED ->
  cookie session = None ->
  fault (UpdateCommand sid None None (JSON_stringify session)) = None ->
  let touched := world (onReady (touch fault sid session (Some cb)) s) in
  let stored := world (onReady (set fault sid session (Some cb)) s) in
  (calls touched = calls (world s) ++ [(cb, [Err TypeError_expires])] /\
   requests touched = requests (world s) /\
   table touched = table (world s)) /\
  (calls stored = calls (world s) ++ [(cb, [])] /\
   requests stored =
     requests (world s) ++ [UpdateCommand sid None None (JSON_stringify session)] /\
   table stored =
     <[sid := mkAttributes None None (JSON_stringify session)]> (table (world s))).
Proof.
  intros Hs Hc Hok touched stored. subst touched stored.
  rewrite !onReady_INITIALIZED by assumption. simpl.
  rewrite touch_no_cookie by assumption.
  pose proof (set_accepted fault sid session (Some cb) undefined (world s)) as Hset.
  cbv zeta in Hset. rewrite Hc in Hset. simpl in Hset.
  rewrite (Hset Hok). simpl. repeat split.
Qed.

Lemma touch_without_cookie_diverges_from_set_witness :
  state (mkSys INITIALIZED [] w0) = INITIALIZED /\
  cookie eve = None /\
  no_fault (UpdateCommand "sid" None None (JSON_stringify eve)) = None /\
  calls (world (onReady (touch no_fault "sid" eve (Some 1%nat))
                        (mkSys INITIALIZED [] w0)))
    = [(1%nat, [Err TypeError_expires])] /\
  table (world (onReady (set no_fault "sid" eve (Some 1%nat))
                        (mkSys INITIALIZED [] w0)))
    = <[ "sid" := mkAttributes None None "Ueve" ]> ∅.
Proof.
  pose proof (touch_without_cookie_diverges_from_set no_fault
                (mkSys INITIALIZED [] w0) "sid" eve 1%nat
                eq_refl eq_refl eq_refl) as [[Hcalls _] [_ [_ Htable]]].
  split; [reflexivity|]. split; [reflexivity|]. split; [reflexivity|].
  split; [exact Hcalls | exact Htable].
Defined.

(** C5, at the input where it fails: for a session without a [cookie]
    property [touch] and [set] end in different worlds ([set] has sent an
    update, [touch] has not). *)
Lemma touch_differs_from_set_without_cookie :
  onReady (touch no_fault "sid" eve (Some 1%nat)) (mkSys INITIALIZED [] w0) <>
  onReady (set no_fault "sid" eve (Some 1%nat)) (mkSys INITIALIZED [] w0).
Proof.
  intros Heq. apply (f_equal (fun s => requests (world s))) in Heq.
  vm_compute in Heq. discriminate Heq.
Qed.

(** C5, amended.  For every session id and every session that has a
    [cookie] property, as [SessionData] requires, [touch] is [set]: from any
    state of the store and of the world, whether the gate is open, failed or
    still closed, both leave the same store and the same world, so the same
    request sent, the same record stored under the same key, and the same
    report to the caller; the expiry fields are those of the new session,
    whatever the old record had. *)
Theorem touch_is_set_with_cookie {P : Payload}
    (fault : Request -> option Error) (sid : string)
    (session : SessionData) (callback : option nat) (c : Cookie) :
  cookie session = Some c ->
  (forall ready w,
     touch fault sid session callback ready w =
     set fault sid session callback ready w) /\
  (forall s, state s <> INITIALIZING ->
     onReady (touch fault sid session callback) s =
     onReady (set fault sid session callback) s) /\
  (forall s r, state s = INITIALIZING ->
     provisioned r (onReady (touch fault sid session callback) s) =
     provisioned r (onReady (set fault sid session callback) s)).
Proof.
  intros Hc.
  assert (Hsame : forall ready w,
             touch fault sid session callback ready w =
             set fault sid session callback ready w)
    by (intros; now apply touch_as_set with c).
  split; [exact Hsame|]. split.
  - intros s Hs. unfold onReady. destruct (state s); [congruence| |];
      now rewrite Hsame.
  - intros s r Hs. rewrite !onReady_INITIALIZING by assumption.
    destruct r; unfold provisioned, resolveReadyPromises, rejectReadyPromises;
      simpl; f_equal; rewrite !foldl_app; simpl; now rewrite Hsame.
Qed.

Lemma touch_is_set_with_cookie_witness :
  cookie ann = Some (mkCookie (Some 1500%Z)) /\
  onReady (touch no_fault "sid" ann (Some 1%nat)) (mkSys INITIALIZED [] w0) =
  onReady (set no_fault "sid" ann (Some 1%nat)) (mkSys INITIALIZED [] w0).
Proof.
  split; [reflexivity|].
  apply (touch_is_set_with_cookie (P := Login_payload) no_fault "sid" ann
           (Some 1%nat)
           (mkCookie (Some 1500%Z)) eq_refl).
  discriminate.
Defined.

(** ** [get] and [destroy] (C7, C8) *)

Section Lookup.

Context {P : Payload}.
Variable fault : Request -> option Error.

Lemma get_absent sessionId callback v w :
  fault (GetCommand sessionId) = None ->
  table w !! sessionId = None ->
  get fault sessionId callback (Fulfilled v) w =
    (Return tt,
     mkWorld (table w) (requests w ++ [GetCommand sessionId])
             (calls w ++ [(callback, [null; null])]) (clock w)).
Proof.
  intros Hok Hnone. unfold get, try_catch, bind, await, ret, send_GetCommand.
  rewrite (call_accepted fault _ _ _ Hok). simpl. now rewrite Hnone.
Qed.

Lemma get_present sessionId callback v w row session :
  fault (GetCommand sessionId) = None ->
  table w !! sessionId = Some row ->
  JSON_parse (session_data row) = inr session ->
  get fault sessionId callback (Fulfilled v) w =
    (Return tt,
     mkWorld (table w) (requests w ++ [GetCommand sessionId])
             (calls w ++ [(callback, [null; Sess session])]) (clock w)).
Proof.
  intros Hok Hrow Hparse.
  unfold get, try_catch, bind, await, ret, send_GetCommand, parse.
  rewrite (call_accepted fault _ _ _ Hok). simpl. rewrite Hrow, Hparse.
  reflexivity.
Qed.

Lemma destroy_absent sid callback v w :
  fault (GetCommand sid) = None ->
  table w !! sid = None ->
  destroy fault sid callback (Fulfilled v) w =
    invoke_opt callback [Err (mkError "Error" "Not found session ID")]
      (mkWorld (table w) (requests w ++ [GetCommand sid]) (calls w) (clock w)).
Proof.
  intros Hok Hnone.
  unfold destroy, try_catch, bind, await, ret, send_GetCommand.
  rewrite (call_accepted fault _ _ _ Hok). simpl. rewrite Hnone.
  now destruct callback.
Qed.

Lemma destroy_present sid callback v w row :
  fault (GetCommand sid) = None ->
  fault (DeleteCommand sid) = None ->
  table w !! sid = Some row ->
  destroy fault sid callback (Fulfilled v) w =
    invoke_opt callback []
      (mkWorld (delete sid (table w))
               (requests w ++ [GetCommand sid; DeleteCommand sid])
               (calls w) (clock w)).
Proof.
  intros Hget Hdel Hrow.
  unfold destroy, try_catch, bind, await, ret, send_GetCommand, client_delete.
  rewrite (call_accepted fault _ _ _ Hget). simpl. rewrite Hrow.
  rewrite (call_accepted fault _ _ _ Hdel). simpl.
  rewrite <- app_assoc. now destruct callback.
Qed.

End Lookup.

(** C7.  On an initialised store whose storage answers the lookup: [destroy]
    of an id that has no record reports the error [Not found session ID] to
    its caller and leaves the table as it is; [destroy] of an id that has a
    record removes it (the storage accepting the deletion) and reports
    success, and a [get] of the same id afterwards reports [(null, null)]:
    no error, no session. *)
Theorem destroy_absent_or_present {P : Payload}
    (fault : Request -> option Error) (s : Sys) (sid : string) (cb : nat) :
  state s = INITIALIZED ->
  fault (GetCommand sid) = None ->
  let after := onReady (destroy fault sid (Some cb)) s in
  match table (world s) !! sid with
  | None =>
      calls (world after) =
        calls (world s) ++ [(cb, [Err (mkError "Error" "Not found session ID")])] /\
      table (world after) = table (world s)
  | Some _ =>
      fault (DeleteCommand sid) = None ->
      calls (world after) = calls (world s) ++ [(cb, [])] /\
      table (world after) = delete sid (table (world s)) /\
      forall cb',
        calls (world (onReady (get fault sid cb') after)) =
        calls (world after) ++ [(cb', [null; null])]
  end.
Proof.
  intros Hs Hget after.
  assert (Hafter : state after = INITIALIZED).
  { subst after. now rewrite onReady_INITIALIZED. }
  destruct (table (world s) !! sid) as [row|] eqn:Hrow.
  - intros Hdel.
    assert (Hw : world after =
                 mkWorld (delete sid (table (world s)))
                         (requests (world s) ++ [GetCommand sid; DeleteCommand sid])
                         (calls (world s) ++ [(cb, [])]) (clock (world s))).
    { subst after. rewrite onReady_INITIALIZED by assumption. simpl.
      now rewrite (destroy_present fault sid (Some cb) _ _ row). }
    rewrite Hw. simpl. repeat split. intros cb'.
    rewrite onReady_INITIALIZED by assumption. simpl. rewrite Hw.
    rewrite get_absent; [reflexivity | assumption | apply lookup_delete_eq].
  - subst after. rewrite onReady_INITIALIZED by assumption. simpl.
    rewrite destroy_absent by assumption. simpl. split; reflexivity.
Qed.

Lemma destroy_absent_or_present_witness :
  let s := mkSys INITIALIZED []
             (mkWorld {[ "sid" := mkAttributes None None "Ueve" ]} [] [] 5000) in
  state s = INITIALIZED /\
  no_fault (GetCommand "sid") = None /\
  no_fault (DeleteCommand "sid") = None /\
  calls (world (onReady (destroy no_fault "sid" (Some 1%nat)) s)) = [(1%nat, [])] /\
  table (world (onReady (destroy no_fault "sid" (Some 1%nat)) s)) = delete "sid" (table (world s)).
Proof.
  intros s.
  pose proof (destroy_absent_or_present no_fault s "sid" 1%nat eq_refl eq_refl)
    as Hthm.
  destruct (Hthm eq_refl) as [Hcalls [Htable _]].
  split; [reflexivity|]. split; [reflexivity|]. split; [reflexivity|].
  split; [exact Hcalls | exact Htable].
Defined.

(** C8.  On an initialised store whose storage accepts the two requests,
    [set(sid, session)] followed by [get(sid)] reports to the caller of
    [get] no error and the session itself, for every session that
    [JSON.parse] gives back from its [JSON.stringify] text; [set] reports
    success before that. *)
Theorem set_then_get_roundtrip {P : Payload}
    (fault : Request -> option Error) (s : Sys) (sid : string)
    (session : SessionData) (cb : option nat) (cb' : nat) :
  state s = INITIALIZED ->
  JSON_parse (JSON_stringify session) = inr session ->
  (forall e ttl, fault (UpdateCommand sid e ttl (JSON_stringify session)) = None) ->
  fault (GetCommand sid) = None ->
  calls (world (onReady (get fault sid cb')
                        (onReady (set fault sid session cb) s))) =
  calls (world s)
    ++ match cb with Some c => [(c, [])] | None => [] end
    ++ [(cb', [null; Sess session])].
Proof.
  intros Hs Hround Hupd Hget.
  rewrite (onReady_INITIALIZED (get fault sid cb')) by now rewrite onReady_INITIALIZED.
  rewrite onReady_INITIALIZED by assumption. simpl.
  pose proof (set_accepted fault sid session cb undefined (world s)) as Hset.
  cbv zeta in Hset. rewrite (Hset (Hupd _ _)). clear Hset.
  destruct cb as [c|]; simpl.
  - erewrite get_present; [| assumption | apply lookup_insert_eq | exact Hround].
    simpl. now rewrite <- app_assoc.
  - erewrite get_present; [| assumption | apply lookup_insert_eq | exact Hround].
    reflexivity.
Qed.

Lemma set_then_get_roundtrip_witness :
  state (mkSys INITIALIZED [] w0) = INITIALIZED /\
  JSON_parse (JSON_stringify ann) = inr ann /\
  (forall e ttl, no_fault (UpdateCommand "sid" e ttl (JSON_stringify ann)) = None) /\
  no_fault (GetCommand "sid") = None /\
  calls (world (onReady (get no_fault "sid" 2%nat)
                        (onReady (set no_fault "sid" ann (Some 1%nat))
                                 (mkSys INITIALIZED [] w0)))) =
  [(1%nat, []); (2%nat, [null; Sess ann])].
Proof.
  split; [reflexivity|]. split; [reflexivity|].
  split; [intros e ttl; reflexivity|]. split; [reflexivity|].
  exact (set_then_get_roundtrip (P := Login_payload) no_fault
           (mkSys INITIALIZED [] w0) "sid" ann (Some 1%nat) 2%nat
           eq_refl eq_refl (fun _ _ => eq_refl) eq_refl).
Defined.

(** ** The reaper (C3, C6) *)

Section Reaper.

Context {P : Payload}.
Variable fault : Request -> option Error.

#[local] Arguments matches : simpl never.

Lemma elem_of_reaped w sid :
  sid ∈ reaped w <->
  exists row e, table w !! sid = Some row /\ expireTime row = Some e /\
                (e < clock w)%Z.
Proof.
  unfold reaped. change (map fst) with (fmap (M := list) (@fst string Attributes)).
  rewrite list_elem_of_fmap. split.
  - intros [[k row] [-> Hin]]. apply list_elem_of_filter in Hin as [Hm Hin].
    apply elem_of_map_to_list in Hin. unfold matches in Hm. simpl in *.
    destruct (expireTime row) as [e|] eqn:He; [|discriminate].
    exists row, e. split; [assumption|]. split; [assumption|].
    now apply Z.ltb_lt.
  - intros (row & e & Hrow & He & Hlt). exists (sid, row). split; [reflexivity|].
    apply list_elem_of_filter. split.
    + unfold matches. simpl. rewrite He. now apply Z.ltb_lt.
    + now apply elem_of_map_to_list.
Qed.




End Reaper.




(** *** With the page of the Scan call *)

Section PagedReaper.

Context {P : Payload}.
Variable fault : Request -> option Error.
Variable page : gmap string Attributes -> nat.

#[local] Arguments matches : simpl never.

Lemma scanned_whole t :
  (size t <= page t)%nat -> scanned page t = map_to_list t.
Proof.
  intros Hfit. unfold scanned. apply take_ge.
  rewrite <- (length_map_to_list t) in Hfit. exact Hfit.
Qed.








(** The bodies over the whole table are the paged ones when the page holds
    the table. *)
Lemma reap_paged_whole callback ready w :
  (size (table w) <= page (table w))%nat ->
  reap_paged fault page callback ready w = reap fault callback ready w.
Proof.
  intros Hfit.
  unfold reap_paged, reap, try_catch, bind, await, ret, throw, Date_now,
    client_scan_paged, client_scan, client_batchWrite, call.
  destruct ready as [v|reason]; simpl; [|reflexivity].
  now rewrite scanned_whole.
Qed.

End PagedReaper.




(** ** The readiness gate (C1, C2) *)

Section Failed.

Context {P : Payload}.
Variable fault : Request -> option Error.

(** When the promise of [onReady] is rejected, each method goes straight to
    its [catch] clause: it hands the rejection reason to its callback and
    sends nothing. *)
Lemma get_rejected sessionId callback reason w :
  get fault sessionId callback (Rejected reason) w =
  invoke callback [reason; null] w.
Proof. reflexivity. Qed.

Lemma set_rejected sid session callback reason w :
  set fault sid session callback (Rejected reason) w =
  invoke_opt callback [reason] w.
Proof. reflexivity. Qed.

Lemma destroy_rejected sid callback reason w :
  destroy fault sid callback (Rejected reason) w =
  invoke_opt callback [reason] w.
Proof. reflexivity. Qed.

Lemma length_rejected callback reason w :
  length fault callback (Rejected reason) w = invoke callback [reason] w.
Proof. reflexivity. Qed.

Lemma touch_rejected sid session callback reason w :
  touch fault sid session callback (Rejected reason) w =
  invoke_opt callback [reason] w.
Proof. reflexivity. Qed.

Lemma reap_rejected callback reason w :
  reap fault callback (Rejected reason) w = invoke_opt callback [reason] w.
Proof. reflexivity. Qed.

Lemma all_rejected callback reason w :
  all fault callback (Rejected reason) w = invoke callback [reason] w.
Proof. reflexivity. Qed.

End Failed.

Section Settling.

Context {P : Payload}.

Lemma provisioned_state r s :
  state (provisioned r s) =
    match r with Return _ => INITIALIZED | Throw _ => FAIL end /\
  onReadyPromises (provisioned r s) = [].
Proof. now destruct r. Qed.

(** When provisioning settles, every stored [resolve] is called, on success
    and on failure alike: with undefined on success, with the provisioning
    error on failure. *)
Lemma waiters_released r s :
  world (provisioned r s) =
    foldl (fun w resolve =>
             (resolve match r with
                      | Return _ => undefined
                      | Throw error => error
                      end w).2)
          (world s) (onReadyPromises s).
Proof. now destruct r. Qed.

(** So the one waiter of a store that is initialising has its promise
    fulfilled either way. *)
Lemma waiter_released k s r :
  state s = INITIALIZING ->
  onReadyPromises s = [] ->
  world (provisioned r (onReady k s)) =
    (k (Fulfilled match r with
                  | Return _ => undefined
                  | Throw error => error
                  end) (world s)).2.
Proof.
  intros Hs Hq. rewrite onReady_INITIALIZING by assumption. rewrite Hq.
  now destruct r.
Qed.

End Settling.

(** C1, at the input where the code departs from it.  A [set] and a [get]
    (of another id) are invoked while the store is initialising: nothing is
    sent or reported until provisioning settles.  Provisioning then fails:
    the store is in state FAIL, yet [rejectReadyPromises] has called the
    stored [resolve] functions, so both operations went on to the storage
    (an update and a lookup were sent) and neither reports a failure: [set]
    reports success and [get] reports no error and no session. *)
Theorem queued_operations_run_after_failed_provisioning :
  let queued := onReady (get no_fault "other" 2%nat)
                  (onReady (set no_fault "sid" ann (Some 1%nat))
                           (constructor w0)) in
  let settled :=
    provisioned (createTableIfNotExists "sessions" access_denied) queued in
  createTableIfNotExists "sessions" access_denied = Throw (Err denied) /\
  state queued = INITIALIZING /\
  world queued = w0 /\
  state settled = FAIL /\
  requests (world settled) =
    [UpdateCommand "sid" (Some 1500%Z) (Some 1%Z) "D1500;ann";
     GetCommand "other"] /\
  calls (world settled) = [(1%nat, []); (2%nat, [null; null])] /\
  world settled = world (provisioned (Return tt) queued).
Proof. repeat split. Qed.

(** C2, at the input where the code departs from it.  Provisioning has
    failed with an error.  Each operation invoked afterwards sends nothing,
    but what its callback receives as error is [undefined] (the gate rejects
    with no reason), not the provisioning error: [get] reports
    [(undefined, null)], the others [(undefined)], which a caller reads as
    success. *)
Theorem failed_gate_reports_no_error :
  let failed :=
    provisioned (createTableIfNotExists "sessions" access_denied)
                (constructor w0) in
  let reported k := world (onReady k failed) in
  createTableIfNotExists "sessions" access_denied = Throw (Err denied) /\
  state failed = FAIL /\
  reported (get no_fault "sid" 1%nat) =
    mkWorld ∅ [] [(1%nat, [undefined; null])] 5000 /\
  reported (set no_fault "sid" ann (Some 2%nat)) =
    mkWorld ∅ [] [(2%nat, [undefined])] 5000 /\
  reported (destroy no_fault "sid" (Some 3%nat)) =
    mkWorld ∅ [] [(3%nat, [undefined])] 5000 /\
  reported (length no_fault 4%nat) =
    mkWorld ∅ [] [(4%nat, [undefined])] 5000 /\
  reported (touch no_fault "sid" ann (Some 5%nat)) =
    mkWorld ∅ [] [(5%nat, [undefined])] 5000 /\
  reported (reap no_fault (Some 6%nat)) =
    mkWorld ∅ [] [(6%nat, [undefined])] 5000 /\
  reported (all no_fault 7%nat) =
    mkWorld ∅ [] [(7%nat, [undefined])] 5000.
Proof. repeat split. Qed.

(** ** The provisioner's polling loop (C9) *)

Section Polling.

Context {P : Payload}.
Variable TableName : string.
Variable svc : Service.

(** The loop runs as [round] tells. *)
Lemma waitUntilTableExists_loop_round endTime i now :
  round TableName svc endTime i now
        (waitUntilTableExists_loop TableName svc endTime i now).
Proof.
  funelim (waitUntilTableExists_loop TableName svc endTime i now).
  - clear Heqcall Heq.
    destruct (reply (polls svc i)) as [e|[]] eqn:Hreply;
      first [ apply round_active; [assumption | now rewrite Hreply]
            | apply round_terminal; [assumption | now rewrite Hreply]
            | apply round_again;
              [assumption | now rewrite Hreply | auto using ACTIVE] ].
  - apply round_deadline. lia.
Qed.

Variable startTime : Z.

Lemma round_start_step i :
  (round_start svc startTime i + 1000 <= round_start svc startTime (S i))%Z.
Proof. simpl. lia. Qed.

Lemma round_start_lower i :
  (startTime + 1000 * Z.of_nat i <= round_start svc startTime i)%Z.
Proof.
  induction i as [|i IH]; [simpl; lia|].
  pose proof (round_start_step i). lia.
Qed.

(** What a run that starts round [i] on time amounts to. *)
Lemma round_spec endTime i now r :
  round TableName svc endTime i now r ->
  now = round_start svc startTime i ->
  (i <= sent r)%nat /\
  (forall j, (i <= j < sent r)%nat ->
             (round_start svc startTime j < endTime)%Z) /\
  (forall j, (i <= j)%nat -> (S j < sent r)%nat ->
             polls_on (reply (polls svc j)) = true) /\
  match outcome r with
  | Return _ =>
      exists k, sent r = S k /\ active (reply (polls svc k)) = true /\
                finished r = answered svc startTime k
  | Throw v =>
      v = timed_out TableName /\
      ((exists k, sent r = S k /\ terminal (reply (polls svc k)) = true /\
                  finished r = answered svc startTime k) \/
       (finished r = round_start svc startTime (sent r) /\
        (endTime <= finished r)%Z /\
        forall j, (i <= j < sent r)%nat ->
                  polls_on (reply (polls svc j)) = true))
  end.
Proof.
  induction 1 as [i now Hlate | i now Hearly Hact | i now Hearly Hterm
                 | i now r Hearly Hon Hrun IH]; intros Hnow; simpl.
  - split; [lia|]. split; [intros j Hj; lia|]. split; [intros j ? ?; lia|].
    split; [reflexivity|]. right. subst now.
    split; [reflexivity|]. split; [assumption|]. intros j Hj. lia.
  - split; [lia|]. split.
    { intros j Hj. assert (j = i) as -> by lia. now subst now. }
    split; [intros j ? ?; lia|].
    exists i. unfold answered. now subst now.
  - split; [lia|]. split.
    { intros j Hj. assert (j = i) as -> by lia. now subst now. }
    split; [intros j ? ?; lia|].
    split; [reflexivity|]. left. exists i. unfold answered. now subst now.
  - destruct IH as (Hle & Hbefore & Hon' & Hout).
    { subst now. simpl. lia. }
    split; [lia|]. split.
    { intros j Hj. destruct (decide (j = i)) as [->|Hne].
      - now subst now.
      - apply Hbefore. lia. }
    split.
    { intros j Hij Hj. destruct (decide (j = i)) as [->|Hne];
        [assumption | apply Hon'; lia]. }
    destruct (outcome r) as [[]|v]; [exact Hout|].
    destruct Hout as [Hv [Hterminal | (Hfin & Hend & Hall)]].
    + split; [assumption|]. now left.
    + split; [assumption|]. right. split; [assumption|].
      split; [assumption|]. intros j Hj.
      destruct (decide (j = i)) as [->|Hne]; [assumption | apply Hall; lia].
Qed.

(** [waitUntilTableExists], for any timeout. *)
Lemma waitUntilTableExists_spec timeout :
  let endTime := (startTime + default 6000 timeout)%Z in
  let r := waitUntilTableExists TableName svc timeout startTime in
  (forall j, (j < sent r)%nat -> (round_start svc startTime j < endTime)%Z) /\
  (forall j, (S j < sent r)%nat -> polls_on (reply (polls svc j)) = true) /\
  (forall k, sent r = S k ->
     (1000 * Z.of_nat k < default 6000 timeout)%Z /\
     (finished r <= round_start svc startTime (S k))%Z) /\
  (sent r = 0%nat -> finished r = startTime) /\
  match outcome r with
  | Return _ =>
      exists k, sent r = S k /\ active (reply (polls svc k)) = true /\
                finished r = answered svc startTime k
  | Throw v =>
      v = timed_out TableName /\
      ((exists k, sent r = S k /\ terminal (reply (polls svc k)) = true /\
                  finished r = answered svc startTime k) \/
       (finished r = round_start svc startTime (sent r) /\
        (endTime <= finished r)%Z /\
        forall j, (j < sent r)%nat -> polls_on (reply (polls svc j)) = true))
  end.
Proof.
  intros endTime r.
  destruct (round_spec endTime 0 startTime r) as (_ & Hbefore & Hon & Hout).
  { apply waitUntilTableExists_loop_round. }
  { reflexivity. }
  assert (Hend : forall k, sent r = S k ->
            (finished r <= round_start svc startTime (S k))%Z).
  { intros k Hk. destruct (outcome r) as [[]|v].
    - destruct Hout as (k' & Hk' & _ & ->). unfold answered.
      assert (k' = k) as -> by lia. simpl. lia.
    - destruct Hout as [_ [(k' & Hk' & _ & ->) | (-> & _)]].
      + unfold answered. assert (k' = k) as -> by lia. simpl. lia.
      + rewrite Hk. lia. }
  split; [intros j Hj; apply Hbefore; lia|].
  split; [intros j Hj; apply Hon; lia|].
  split.
  { intros k Hk. split; [|now apply Hend].
    pose proof (Hbefore k ltac:(lia)). pose proof (round_start_lower k).
    subst endTime. lia. }
  split.
  { intros Hzero. destruct (outcome r) as [[]|v].
    - destruct Hout as (k & Hk & _). lia.
    - destruct Hout as [_ [(k & Hk & _) | (-> & _)]]; [lia|].
      now rewrite Hzero. }
  destruct (outcome r) as [[]|v]; [exact Hout|].
  destruct Hout as [Hv [Hterminal | (Hfin & Hdeadline & Hall)]].
  - split; [assumption|]. now left.
  - split; [assumption|]. right. split; [assumption|].
    split; [assumption|]. intros j Hj. apply Hall. lia.
Qed.

End Polling.

(** C9, at an input where it fails.  The created table stays in creation and
    each DescribeTable request takes 1 ms: the six rounds start at 0, 1001,
    ..., 5005 ms, all before the deadline of 6000 ms, and the loop ends,
    with the time-out error, at 6006 ms: after the timeout, not within it. *)
Lemma polling_ends_after_the_timeout :
  let r := waitUntilTableExists "sessions" creating_forever None 0 in
  createTableIfNotExists "sessions" creating_forever = outcome r /\
  outcome r = Throw (timed_out "sessions") /\
  sent r = 6%nat /\
  finished r = 6006%Z /\
  ~ (finished r - 0 <= 6000)%Z.
Proof.
  intros r.
  split; [reflexivity|]. split; [reflexivity|]. split; [reflexivity|].
  split; [reflexivity|]. vm_compute. intros Hle. now apply Hle.
Qed.

(** C9, amended.  After creating a missing table the provisioner polls the
    table's status, with the default timeout of 6000 ms: at least once and at
    most six times, each request sent before the deadline and at least
    1000 ms (the time of the previous request, then a 1000 ms timer) after
    the previous one.  It returns as soon as a request is answered [ACTIVE];
    it throws its time-out error, which puts the store in state FAIL, as soon
    as a request is answered [DELETING] or
    [INACCESSIBLE_ENCRYPTION_CREDENTIALS], or when the deadline has passed at
    the test of the loop.  The loop always terminates, and it ends no later
    than one round (request, timer) after a round that started before the
    deadline; it may end after the deadline. *)
Theorem provisioner_polls_the_created_table {P : Payload}
    (TableName : string) (svc : Service) (error : Error) :
  DescribeTable svc = inl error ->
  name error = "ResourceNotFoundException" ->
  CreateTable svc = inr tt ->
  let startTime := entered svc in
  let endTime := (startTime + 6000)%Z in
  let r := waitUntilTableExists TableName svc None startTime in
  createTableIfNotExists TableName svc = outcome r /\
  (1 <= sent r <= 6)%nat /\
  (forall j, (j < sent r)%nat -> (round_start svc startTime j < endTime)%Z) /\
  (forall j, (round_start svc startTime j + 1000
              <= round_start svc startTime (S j))%Z) /\
  (forall j, (S j < sent r)%nat -> polls_on (reply (polls svc j)) = true) /\
  (finished r <= round_start svc startTime (sent r))%Z /\
  match outcome r with
  | Return _ =>
      exists k, sent r = S k /\ reply (polls svc k) = inr ACTIVE /\
                finished r = answered svc startTime k
  | Throw v =>
      v = timed_out TableName /\
      (forall s, state (provisioned (Throw v) s) = FAIL) /\
      ((exists k, sent r = S k /\ terminal (reply (polls svc k)) = true /\
                  finished r = answered svc startTime k) \/
       (finished r = round_start svc startTime (sent r) /\
        (endTime <= finished r)%Z /\
        forall j, (j < sent r)%nat -> polls_on (reply (polls svc j)) = true))
  end.
Proof.
  intros Hdescribe Hname Hcreate startTime endTime r.
  destruct (waitUntilTableExists_spec TableName svc startTime None)
    as (Hbefore & Hon & Hbound & Hzero & Hout).
  fold r in Hbefore, Hon, Hbound, Hzero, Hout. simpl in Hbefore, Hbound, Hout.
  fold endTime in Hbefore, Hout.
  assert (Hsome : (1 <= sent r)%nat).
  { destruct (sent r) as [|k] eqn:Hsent; [|lia]. exfalso.
    specialize (Hzero eq_refl).
    destruct (outcome r) as [[]|v].
    - destruct Hout as (k & Hk & _). discriminate Hk.
    - destruct Hout as [_ [(k & Hk & _) | (_ & Hdeadline & _)]];
        [discriminate Hk|]. subst endTime. lia. }
  split.
  { unfold createTableIfNotExists. rewrite Hdescribe, Hname, Hcreate.
    reflexivity. }
  destruct (sent r) as [|k] eqn:Hsent; [lia|].
  destruct (Hbound k eq_refl) as [Hk Hfin].
  split; [lia|]. split; [assumption|].
  split; [intros j; apply round_start_step|].
  split; [assumption|]. split; [assumption|].
  destruct (outcome r) as [[]|v].
  - destruct Hout as (k' & Hk' & Hact & Hfin'). exists k'.
    split; [assumption|]. split; [|assumption].
    unfold active in Hact.
    destruct (reply (polls svc k')) as [e|[]]; try discriminate Hact.
    reflexivity.
  - destruct Hout as [Hv Hwhy]. split; [assumption|].
    split; [reflexivity | exact Hwhy].
Qed.

Lemma provisioner_polls_the_created_table_witness :
  DescribeTable active_at_third =
    inl (mkError "ResourceNotFoundException" "no such table") /\
  name (mkError "ResourceNotFoundException" "no such table") =
    "ResourceNotFoundException" /\
  CreateTable active_at_third = inr tt /\
  createTableIfNotExists "sessions" active_at_third = Return tt /\
  (1 <= sent (waitUntilTableExists "sessions" active_at_third None 0) <= 6)%nat.
Proof.
  pose proof (provisioner_polls_the_created_table (P := Login_payload)
                "sessions" active_at_third
                (mkError "ResourceNotFoundException" "no such table")
                eq_refl eq_refl eq_refl) as (Hrun & Hsent & _).
  split; [reflexivity|]. split; [reflexivity|]. split; [reflexivity|].
  split; [exact Hrun | exact Hsent].
Defined.

(** * Further properties *)

(** ** The gate defers transparently *)

(** X1.  An operation invoked while the store is initialising, with no other
    waiter, sends nothing and reports nothing; when provisioning succeeds it
    runs, and the store and the world end exactly as if it had been invoked
    after the success. *)
Theorem deferred_operation_runs_as_if_invoked_later {P : Payload}
    (k : Settled -> M unit) (s : Sys) :
  state s = INITIALIZING ->
  onReadyPromises s = [] ->
  world (onReady k s) = world s /\
  provisioned (Return tt) (onReady k s) =
    mkSys INITIALIZED [] (k (Fulfilled undefined) (world s)).2 /\
  onReady k (provisioned (Return tt) s) =
    mkSys INITIALIZED [] (k (Fulfilled undefined) (world s)).2.
Proof.
  intros Hs Hq. rewrite onReady_INITIALIZING by assumption.
  split; [reflexivity|]. unfold provisioned, resolveReadyPromises. simpl.
  rewrite Hq. simpl. split; reflexivity.
Qed.

Lemma deferred_operation_runs_as_if_invoked_later_witness :
  state (constructor w0) = INITIALIZING /\
  onReadyPromises (constructor w0) = [] /\
  provisioned (Return tt)
    (onReady (set no_fault "sid" ann (Some 1%nat)) (constructor w0)) =
  onReady (set no_fault "sid" ann (Some 1%nat))
    (provisioned (Return tt) (constructor w0)).
Proof.
  split; [reflexivity|]. split; [reflexivity|].
  destruct (deferred_operation_runs_as_if_invoked_later
              (set (P := Login_payload) no_fault "sid" ann (Some 1%nat))
              (constructor w0)
              eq_refl eq_refl) as (_ & Hqueued & Hlater).
  exact (eq_trans Hqueued (eq_sym Hlater)).
Defined.

(** ** Reading operations *)

Section Reports.

Context {P : Payload}.
Variable fault : Request -> option Error.

Lemma forEach_parse_world items sessions w :
  (forEach_parse items sessions w).2 = w.
Proof.
  revert sessions. induction items as [|item rest IH]; intros sessions;
    [reflexivity|].
  simpl. unfold bind, parse.
  destruct (JSON_parse (session_data item.2)); simpl; [reflexivity|].
  apply IH.
Qed.

Ltac open_method :=
  unfold get, set, destroy, length, touch, reap, all, try_catch, bind,
    await, ret, throw, parse, send_GetCommand, send_UpdateCommand,
    client_delete, client_scan, client_batchWrite, Date_now, call; simpl.

Ltac cases :=
  repeat match goal with
         | |- context [match fault ?req with _ => _ end] => destruct (fault req)
         | |- context [match table ?w !! ?k with _ => _ end] =>
             destruct (table w !! k)
         | |- context [match JSON_parse ?t with _ => _ end] =>
             destruct (JSON_parse t)
         | |- context [match cookie ?s with _ => _ end] => destruct (cookie s)
         | |- context [invoke_opt ?c _ _] => is_var c; destruct c
         | |- context [forEach_parse ?items ?m ?w0] =>
             let Hw := fresh "Hw" in
             pose proof (forEach_parse_world items m w0) as Hw;
             destruct (forEach_parse items m w0) as [[?|?] ?];
             simpl in Hw; subst
         end; simpl.

(** Reading operations. *)
Lemma get_table sid cb ready w :
  table (get fault sid cb ready w).2 = table w.
Proof. destruct ready; open_method; cases; reflexivity. Qed.

Lemma length_table cb ready w :
  table (length fault cb ready w).2 = table w.
Proof. destruct ready; open_method; cases; reflexivity. Qed.

Lemma all_table cb ready w :
  table (all fault cb ready w).2 = table w.
Proof. destruct ready; open_method; cases; reflexivity. Qed.

End Reports.

(** X3.  [get], [length] and [all] never change the table, in any state of
    the store and whatever the storage answers. *)
Theorem reading_leaves_the_table {P : Payload}
    (fault : Request -> option Error) (s : Sys) (sid : string) (cb : nat) :
  table (world (onReady (get fault sid cb) s)) = table (world s) /\
  table (world (onReady (length fault cb) s)) = table (world s) /\
  table (world (onReady (all fault cb) s)) = table (world s).
Proof.
  unfold onReady.
  destruct (state s); simpl; auto using get_table, length_table, all_table.
Qed.

(** ** Errors of the storage and of the decoder *)

(** X4.  When the storage refuses the lookup, [get] reports the storage's
    error with a null session, after that one request, and the table is as
    it was. *)
Theorem get_reports_a_refused_lookup {P : Payload}
    (fault : Request -> option Error) (s : Sys) (sid : string) (cb : nat)
    (e : Error) :
  state s = INITIALIZED ->
  fault (GetCommand sid) = Some e ->
  world (onReady (get fault sid cb) s) =
    mkWorld (table (world s)) (requests (world s) ++ [GetCommand sid])
            (calls (world s) ++ [(cb, [Err e; null])]) (clock (world s)).
Proof.
  intros Hs Hko. rewrite onReady_INITIALIZED by assumption. simpl.
  unfold get, try_catch, bind, await, ret, send_GetCommand.
  now rewrite (call_refused fault _ _ _ _ Hko).
Qed.

Lemma get_reports_a_refused_lookup_witness :
  state (mkSys INITIALIZED [] w0) = INITIALIZED /\
  refuse_all (GetCommand "sid") = Some denied /\
  world (onReady (get refuse_all "sid" 1%nat) (mkSys INITIALIZED [] w0)) =
    mkWorld ∅ [GetCommand "sid"] [(1%nat, [Err denied; null])] 5000.
Proof.
  split; [reflexivity|]. split; [reflexivity|].
  exact (get_reports_a_refused_lookup (P := Login_payload) refuse_all
           (mkSys INITIALIZED [] w0) "sid" 1%nat denied eq_refl eq_refl).
Defined.

(** X5.  When the stored payload does not parse, [get] reports the error of
    [JSON.parse] with a null session: a corrupt record is an error, not an
    absent session. *)
Theorem get_reports_a_corrupt_record {P : Payload}
    (fault : Request -> option Error) (s : Sys) (sid : string) (cb : nat)
    (row : Attributes) (e : Error) :
  state s = INITIALIZED ->
  fault (GetCommand sid) = None ->
  table (world s) !! sid = Some row ->
  JSON_parse (session_data row) = inl e ->
  world (onReady (get fault sid cb) s) =
    mkWorld (table (world s)) (requests (world s) ++ [GetCommand sid])
            (calls (world s) ++ [(cb, [Err e; null])]) (clock (world s)).
Proof.
  intros Hs Hok Hrow Hparse. rewrite onReady_INITIALIZED by assumption. simpl.
  unfold get, try_catch, bind, await, ret, throw, send_GetCommand, parse.
  rewrite (call_accepted fault _ _ _ Hok). simpl. now rewrite Hrow, Hparse.
Qed.

Lemma get_reports_a_corrupt_record_witness :
  state (mkSys INITIALIZED [] w_corrupt) = INITIALIZED /\
  no_fault (GetCommand "sid") = None /\
  table w_corrupt !! "sid" = Some (mkAttributes None None "garbled") /\
  JSON_parse "garbled" = inl SyntaxError /\
  calls (world (onReady (get no_fault "sid" 1%nat)
                        (mkSys INITIALIZED [] w_corrupt))) =
    [(1%nat, [Err SyntaxError; null])].
Proof.
  split; [reflexivity|]. split; [reflexivity|]. split; [reflexivity|].
  split; [reflexivity|].
  exact (f_equal calls
           (get_reports_a_corrupt_record (P := Login_payload) no_fault
              (mkSys INITIALIZED [] w_corrupt) "sid" 1%nat
              (mkAttributes None None "garbled") SyntaxError
              eq_refl eq_refl eq_refl eq_refl)).
Defined.

(** X6.  When the storage refuses the update, [set] and [touch] leave the
    table as it was and report the storage's error ([touch] of a session
    without cookie reports its TypeError, as it sends nothing). *)
Theorem refused_update_stores_nothing {P : Payload}
    (fault : Request -> option Error) (s : Sys) (sid : string)
    (session : SessionData) (cb : nat) (e : Error) :
  state s = INITIALIZED ->
  (forall ex ttl,
     fault (UpdateCommand sid ex ttl (JSON_stringify session)) = Some e) ->
  let stored := world (onReady (set fault sid session (Some cb)) s) in
  let touched := world (onReady (touch fault sid session (Some cb)) s) in
  (table stored = table (world s) /\
   calls stored = calls (world s) ++ [(cb, [Err e])]) /\
  (table touched = table (world s) /\
   calls touched =
     calls (world s) ++
     [(cb, [Err match cookie session with
                | Some _ => e
                | None => TypeError_expires
                end])]).
Proof.
  intros Hs Hko stored touched. subst stored touched.
  rewrite !onReady_INITIALIZED by assumption. simpl.
  assert (Hset :
    set fault sid session (Some cb) (Fulfilled undefined) (world s) =
    (Return tt,
     mkWorld (table (world s))
       (requests (world s) ++
        [UpdateCommand sid
           (getTime_or_null match cookie session with
                            | Some c => expires c
                            | None => None
                            end)
           (floor_or_null
              (getTime_or_null match cookie session with
                               | Some c => expires c
                               | None => None
                               end))
           (JSON_stringify session)])
       (calls (world s) ++ [(cb, [Err e])]) (clock (world s)))).
  { unfold set, try_catch, bind, await, ret, send_UpdateCommand.
    now rewrite (call_refused fault _ _ _ _ (Hko _ _)). }
  split; [now rewrite Hset|].
  destruct (cookie session) as [c|] eqn:Hc.
  - rewrite (touch_as_set fault sid session (Some cb) _ _ c Hc).
    now rewrite Hset.
  - now rewrite touch_no_cookie.
Qed.

Lemma refused_update_stores_nothing_witness :
  state (mkSys INITIALIZED [] w3) = INITIALIZED /\
  (forall ex ttl,
     refuse_all (UpdateCommand "a" ex ttl (JSON_stringify joe)) = Some denied) /\
  table (world (onReady (set refuse_all "a" joe (Some 1%nat))
                        (mkSys INITIALIZED [] w3))) = table w3 /\
  calls (world (onReady (set refuse_all "a" joe (Some 1%nat))
                        (mkSys INITIALIZED [] w3))) = [(1%nat, [Err denied])].
Proof.
  split; [reflexivity|]. split; [intros ex ttl; reflexivity|].
  exact (proj1 (refused_update_stores_nothing (P := Login_payload) refuse_all
                  (mkSys INITIALIZED [] w3) "a" joe 1%nat denied
                  eq_refl (fun _ _ => eq_refl))).
Defined.

(** X7.  When the storage answers the lookup of an existing record but refuses
    its deletion, [destroy] reports the storage's error and the record
    stays. *)
Theorem refused_deletion_keeps_the_record {P : Payload}
    (fault : Request -> option Error) (s : Sys) (sid : string) (cb : nat)
    (row : Attributes) (e : Error) :
  state s = INITIALIZED ->
  fault (GetCommand sid) = None ->
  table (world s) !! sid = Some row ->
  fault (DeleteCommand sid) = Some e ->
  world (onReady (destroy fault sid (Some cb)) s) =
    mkWorld (table (world s))
            (requests (world s) ++ [GetCommand sid; DeleteCommand sid])
            (calls (world s) ++ [(cb, [Err e])]) (clock (world s)).
Proof.
  intros Hs Hget Hrow Hdel. rewrite onReady_INITIALIZED by assumption. simpl.
  unfold destroy, try_catch, bind, await, ret, send_GetCommand, client_delete.
  rewrite (call_accepted fault _ _ _ Hget). simpl. rewrite Hrow.
  rewrite (call_refused fault _ _ _ _ Hdel). simpl.
  now rewrite <- app_assoc.
Qed.

Lemma refused_deletion_keeps_the_record_witness :
  let s := mkSys INITIALIZED [] w3 in
  state s = INITIALIZED /\
  refuse_writes (GetCommand "b") = None /\
  table (world s) !! "b" = Some (mkAttributes None None "Ueve") /\
  refuse_writes (DeleteCommand "b") = Some denied /\
  world (onReady (destroy refuse_writes "b" (Some 1%nat)) s) =
    mkWorld (table w3) [GetCommand "b"; DeleteCommand "b"]
            [(1%nat, [Err denied])] 5000.
Proof.
  intros s.
  split; [reflexivity|]. split; [reflexivity|]. split; [reflexivity|].
  split; [reflexivity|].
  exact (refused_deletion_keeps_the_record (P := Login_payload) refuse_writes
           s "b" 1%nat (mkAttributes None None "Ueve") denied
           eq_refl eq_refl eq_refl eq_refl).
Defined.

(** ** The reaper, whatever the storage answers *)

Section ReaperFrame.

Context {P : Payload}.
Variable fault : Request -> option Error.

#[local] Arguments matches : simpl never.

Lemma reap_table_cases callback ready w :
  table (reap fault callback ready w).2 = table w \/
  table (reap fault callback ready w).2 = foldr delete (table w) (reaped w).
Proof.
  unfold reap, try_catch, bind, await, ret, throw, Date_now, client_scan,
    client_batchWrite.
  destruct ready as [v|reason]; simpl; [|left; now destruct callback].
  destruct (fault (ScanCommand (Some (clock w)))) as [e|] eqn:Hscan.
  - rewrite (call_refused fault _ _ _ _ Hscan). left. now destruct callback.
  - rewrite (call_accepted fault _ _ _ Hscan). simpl. fold (reaped w).
    unfold call. simpl.
    destruct (fault (BatchWriteCommand (reaped w)));
      [left | right]; now destruct callback.
Qed.


End ReaperFrame.

(** X8.  In any state of the store and whatever the storage answers, [reap]
    neither adds nor changes a record, and it keeps every record whose
    [expireTime] is null or not below the clock. *)
Theorem reap_only_removes_expired_records {P : Payload}
    (fault : Request -> option Error) (s : Sys) (cb : option nat)
    (sid : string) (row : Attributes) :
  let after := table (world (onReady (reap fault cb) s)) in
  (after !! sid = Some row -> table (world s) !! sid = Some row) /\
  (table (world s) !! sid = Some row ->
   (forall e, expireTime row = Some e -> (clock (world s) <= e)%Z) ->
   after !! sid = Some row).
Proof.
  intros after.
  assert (Hcases : after = table (world s) \/
                   after = foldr delete (table (world s)) (reaped (world s))).
  { subst after. unfold onReady.
    destruct (state s); simpl; auto using reap_table_cases. }
  destruct Hcases as [-> | ->]; [tauto|]. split.
  - intros Hrow. now apply lookup_foldr_delete_Some in Hrow.
  - intros Hrow Hfresh. apply lookup_foldr_delete_Some. split; [|assumption].
    intros Hin. apply elem_of_reaped in Hin as (row' & e & Hrow' & He & Hlt).
    rewrite Hrow in Hrow'. injection Hrow' as <-.
    specialize (Hfresh e He). lia.
Qed.



(** ** How the operations compose *)

(** X10.  [destroy] of an existing record, done twice: the first reports
    success, the second looks the id up again, finds nothing, reports
    [Not found session ID] and sends no deletion. *)
Theorem second_destroy_reports_not_found {P : Payload}
    (fault : Request -> option Error) (s : Sys) (sid : string)
    (cb cb' : nat) (row : Attributes) :
  state s = INITIALIZED ->
  fault (GetCommand sid) = None ->
  fault (DeleteCommand sid) = None ->
  table (world s) !! sid = Some row ->
  let once := onReady (destroy fault sid (Some cb)) s in
  let twice := onReady (destroy fault sid (Some cb')) once in
  calls (world twice) =
    calls (world s) ++
    [(cb, []); (cb', [Err (mkError "Error" "Not found session ID")])] /\
  requests (world twice) =
    requests (world s) ++ [GetCommand sid; DeleteCommand sid; GetCommand sid] /\
  table (world twice) = delete sid (table (world s)).
Proof.
  intros Hs Hget Hdel Hrow once twice. subst twice once.
  rewrite (onReady_INITIALIZED (destroy fault sid (Some cb'))) by now rewrite onReady_INITIALIZED.
  rewrite onReady_INITIALIZED by assumption. simpl.
  rewrite (destroy_present fault sid (Some cb) _ _ row) by assumption. simpl.
  rewrite destroy_absent by (try assumption; simpl; apply lookup_delete_eq).
  simpl. rewrite <- !app_assoc. now simpl.
Qed.

Lemma second_destroy_reports_not_found_witness :
  let s := mkSys INITIALIZED [] w3 in
  state s = INITIALIZED /\
  no_fault (GetCommand "b") = None /\
  no_fault (DeleteCommand "b") = None /\
  table (world s) !! "b" = Some (mkAttributes None None "Ueve") /\
  calls (world (onReady (destroy no_fault "b" (Some 2%nat))
                        (onReady (destroy no_fault "b" (Some 1%nat)) s))) =
    [(1%nat, []); (2%nat, [Err (mkError "Error" "Not found session ID")])].
Proof.
  intros s.
  split; [reflexivity|]. split; [reflexivity|]. split; [reflexivity|].
  split; [reflexivity|].
  exact (proj1 (second_destroy_reports_not_found (P := Login_payload) no_fault
                  s "b" 1%nat 2%nat (mkAttributes None None "Ueve")
                  eq_refl eq_refl eq_refl eq_refl)).
Defined.



Section Frames.

Context {P : Payload}.
Variable fault : Request -> option Error.

Ltac open_method :=
  unfold get, set, destroy, length, touch, reap, all, try_catch, bind,
    await, ret, throw, parse, send_GetCommand, send_UpdateCommand,
    client_delete, client_scan, client_batchWrite, Date_now, call; simpl.

Ltac cases :=
  repeat match goal with
         | |- context [match fault ?req with _ => _ end] => destruct (fault req)
         | |- context [match table ?w !! ?k with _ => _ end] =>
             destruct (table w !! k)
         | |- context [match JSON_parse ?t with _ => _ end] =>
             destruct (JSON_parse t)
         | |- context [match cookie ?s with _ => _ end] => destruct (cookie s)
         | |- context [invoke_opt ?c _ _] => is_var c; destruct c
         end; simpl.

Lemma set_other sid sid' session callback ready w :
  sid <> sid' ->
  table (set fault sid session callback ready w).2 !! sid' = table w !! sid'.
Proof.
  intros Hne. destruct ready; open_method; cases;
    rewrite ?lookup_insert_ne by assumption; reflexivity.
Qed.

Lemma touch_other sid sid' session callback ready w :
  sid <> sid' ->
  table (touch fault sid session callback ready w).2 !! sid' = table w !! sid'.
Proof.
  intros Hne. destruct ready; open_method; cases;
    rewrite ?lookup_insert_ne by assumption; reflexivity.
Qed.

Lemma destroy_other sid sid' callback ready w :
  sid <> sid' ->
  table (destroy fault sid callback ready w).2 !! sid' = table w !! sid'.
Proof.
  intros Hne. destruct ready; open_method; cases;
    rewrite ?lookup_delete_ne by assumption; reflexivity.
Qed.

(** What [get] reports is decided by the row of its id. *)
Lemma get_same_row sid cb v v' w w' :
  table w !! sid = table w' !! sid ->
  exists args,
    calls (get fault sid cb (Fulfilled v) w).2 = calls w ++ [(cb, args)] /\
    calls (get fault sid cb (Fulfilled v') w').2 = calls w' ++ [(cb, args)].
Proof.
  intros Hrow. open_method. rewrite <- Hrow. cases; eexists; split; reflexivity.
Qed.

Lemma scan_everything (items : list Item) :
  filter (fun item => matches None item = true) items = items.
Proof.
  induction items as [|item items IH]; [reflexivity|].
  rewrite filter_cons_True by reflexivity. now rewrite IH.
Qed.


Lemma forEach_parse_fails items acc w k a e :
  (k, a) ∈ items ->
  JSON_parse (session_data a) = inl e ->
  exists k' a' e',
    (k', a') ∈ items /\ JSON_parse (session_data a') = inl e' /\
    forEach_parse items acc w = (Throw (Err e'), w).
Proof.
  revert acc. induction items as [|[k0 a0] items IH]; intros acc Hin Hbad.
  - now apply elem_of_nil in Hin.
  - destruct (JSON_parse (session_data a0)) as [e0|s0] eqn:H0.
    + exists k0, a0, e0. split; [left|]. split; [assumption|].
      simpl. unfold bind, parse. simpl. now rewrite H0.
    + apply elem_of_cons in Hin as [Heq | Hin].
      { injection Heq as -> ->. congruence. }
      destruct (IH (<[k0 := s0]> acc) Hin Hbad) as (k' & a' & e' & Hin' & He' & Hrun).
      exists k', a', e'. split; [now right|]. split; [assumption|].
      simpl. unfold bind, parse. simpl. rewrite H0. exact Hrun.
Qed.

End Frames.

(** X12.  [set], [touch] and [destroy] of one id leave the record of every
    other id as it was, whatever the storage answers, and [get] of another id
    reports after them what it reported before. *)
Theorem writes_leave_other_sessions {P : Payload}
    (fault : Request -> option Error) (s : Sys) (sid sid' : string)
    (session : SessionData) (callback : option nat) (cb : nat) :
  sid <> sid' ->
  state s = INITIALIZED ->
  Forall (fun k =>
            table (world (onReady k s)) !! sid' = table (world s) !! sid' /\
            exists args,
              calls (world (onReady (get fault sid' cb) s)) =
                calls (world s) ++ [(cb, args)] /\
              calls (world (onReady (get fault sid' cb) (onReady k s))) =
                calls (world (onReady k s)) ++ [(cb, args)])
         [set fault sid session callback; touch fault sid session callback;
          destroy fault sid callback].
Proof.
  intros Hne Hs.
  assert (Hstep : forall k,
            (forall ready w, table (k ready w).2 !! sid' = table w !! sid') ->
            table (world (onReady k s)) !! sid' = table (world s) !! sid' /\
            exists args,
              calls (world (onReady (get fault sid' cb) s)) =
                calls (world s) ++ [(cb, args)] /\
              calls (world (onReady (get fault sid' cb) (onReady k s))) =
                calls (world (onReady k s)) ++ [(cb, args)]).
  { intros k Hk.
    rewrite (onReady_INITIALIZED (get fault sid' cb) (onReady k s))
      by now rewrite onReady_INITIALIZED.
    rewrite !onReady_INITIALIZED by assumption. simpl.
    split; [apply Hk|]. apply get_same_row. symmetry. apply Hk. }
  apply Forall_cons. split.
  { apply Hstep. intros ready w. now apply set_other. }
  apply Forall_cons. split.
  { apply Hstep. intros ready w. now apply touch_other. }
  apply Forall_cons. split; [|constructor].
  apply Hstep. intros ready w. now apply destroy_other.
Qed.

Lemma writes_leave_other_sessions_witness :
  let s := mkSys INITIALIZED [] w3 in
  "a" <> "b" /\
  state s = INITIALIZED /\
  table (world (onReady (destroy no_fault "a" None) s)) !! "b" =
    table (world s) !! "b".
Proof.
  intros s.
  pose proof (writes_leave_other_sessions (P := Login_payload) no_fault s
                "a" "b" ann None 1%nat ltac:(discriminate) eq_refl) as Hall.
  split; [discriminate|]. split; [reflexivity|].
  apply Forall_cons in Hall as [_ Hall].
  apply Forall_cons in Hall as [_ Hall].
  apply Forall_cons in Hall as [[Hrow _] _].
  exact Hrow.
Defined.

Section PagedScans.

Context {P : Payload}.
Variable fault : Request -> option Error.
Variable page : gmap string Attributes -> nat.

#[local] Arguments matches : simpl never.

Lemma length_scanned t :
  List.length (scanned page t) = Nat.min (page t) (size t).
Proof.
  unfold scanned. rewrite length_take. unfold Item.
  now rewrite length_map_to_list.
Qed.


Lemma length_paged_answered cb v w :
  fault (ScanCommand None) = None ->
  length_paged fault page cb (Fulfilled v) w =
    (Return tt,
     mkWorld (table w) (requests w ++ [ScanCommand None])
             (calls w ++
              [(cb, [null; Num (Z.of_nat (Nat.min (page (table w))
                                                  (size (table w))))])])
             (clock w)).
Proof.
  intros Hscan.
  unfold length_paged, try_catch, bind, await, ret, client_scan_paged.
  rewrite (call_accepted fault _ _ _ Hscan). cbn [fst snd].
  rewrite scan_everything, length_scanned. reflexivity.
Qed.

End PagedScans.

(** X13.  [length] reports the number of rows of one Scan page: the number
    of records when the page holds the table, the size of the page
    otherwise.  After a [set], when the page holds the table, it reports one
    more when the id was new and the same number when the id had a
    record. *)
Theorem length_counts_the_first_page {P : Payload}
    (fault : Request -> option Error) (page : gmap string Attributes -> nat)
    (s : Sys) (sid : string) (session : SessionData) (cb : nat) :
  state s = INITIALIZED ->
  fault (ScanCommand None) = None ->
  let t := table (world s) in
  let stored := onReady (set fault sid session None) s in
  calls (world (onReady (length_paged fault page cb) s)) =
    calls (world s) ++
    [(cb, [null; Num (Z.of_nat (Nat.min (page t) (size t)))])] /\
  ((forall ex ttl,
      fault (UpdateCommand sid ex ttl (JSON_stringify session)) = None) ->
   (size (table (world stored)) <= page (table (world stored)))%nat ->
   calls (world (onReady (length_paged fault page cb) stored)) =
     calls (world s) ++
     [(cb, [null; Num match t !! sid with
                      | Some _ => Z.of_nat (size t)
                      | None => (Z.of_nat (size t) + 1)%Z
                      end])]).
Proof.
  intros Hs Hscan t stored. split.
  - rewrite onReady_INITIALIZED by assumption. simpl.
    now rewrite length_paged_answered.
  - intros Hok Hfit.
    assert (Hstored : world stored =
              mkWorld (<[sid := mkAttributes
                                  (getTime_or_null match cookie session with
                                                   | Some c => expires c
                                                   | None => None
                                                   end)
                                  (floor_or_null
                                     (getTime_or_null match cookie session with
                                                      | Some c => expires c
                                                      | None => None
                                                      end))
                                  (JSON_stringify session)]> t)
                      (requests (world s) ++
                         [UpdateCommand sid
                            (getTime_or_null match cookie session with
                                             | Some c => expires c
                                             | None => None
                                             end)
                            (floor_or_null
                               (getTime_or_null match cookie session with
                                                | Some c => expires c
                                                | None => None
                                                end))
                            (JSON_stringify session)])
                      (calls (world s)) (clock (world s))).
    { subst stored. rewrite onReady_INITIALIZED by assumption. simpl.
      pose proof (set_accepted fault sid session None undefined (world s))
        as Hset.
      cbv zeta in Hset. now rewrite (Hset (Hok _ _)). }
    rewrite onReady_INITIALIZED
      by (subst stored; now rewrite onReady_INITIALIZED).
    simpl. rewrite length_paged_answered by assumption. simpl.
    rewrite Nat.min_r by assumption. rewrite Hstored. simpl.
    destruct (t !! sid) as [row|] eqn:Hrow.
    + rewrite map_size_insert_Some by (rewrite Hrow; eauto). reflexivity.
    + rewrite map_size_insert_None by assumption.
      rewrite Nat2Z.inj_succ. reflexivity.
Qed.

Lemma length_counts_the_first_page_witness :
  let s := mkSys INITIALIZED [] w3 in
  state s = INITIALIZED /\
  no_fault (ScanCommand None) = None /\
  calls (world (onReady (length_paged no_fault two_rows 1%nat) s)) =
    [(1%nat, [null; Num 2%Z])] /\
  calls (world (onReady (length_paged no_fault whole_table 1%nat) s)) =
    [(1%nat, [null; Num 3%Z])].
Proof.
  intros s. split; [reflexivity|]. split; [reflexivity|]. split.
  - exact (proj1 (length_counts_the_first_page (P := Login_payload) no_fault
                    two_rows s "d" ann 1%nat eq_refl eq_refl)).
  - exact (proj1 (length_counts_the_first_page (P := Login_payload) no_fault
                    whole_table s "d" ann 1%nat eq_refl eq_refl)).
Defined.



(** X15.  When some payload of the Scan page does not parse, [all] reports
    the parse error of a corrupt record of the page, and no mapping. *)
Theorem all_reports_a_corrupt_record {P : Payload}
    (fault : Request -> option Error) (page : gmap string Attributes -> nat)
    (s : Sys) (cb : nat) (sid : string) (row : Attributes) (e : Error) :
  state s = INITIALIZED ->
  fault (ScanCommand None) = None ->
  (sid, row) ∈ scanned page (table (world s)) ->
  JSON_parse (session_data row) = inl e ->
  exists sid' row' e',
    (sid', row') ∈ scanned page (table (world s)) /\
    JSON_parse (session_data row') = inl e' /\
    calls (world (onReady (all_paged fault page cb) s)) =
      calls (world s) ++ [(cb, [Err e'])].
Proof.
  intros Hs Hscan Hrow Hbad.
  destruct (forEach_parse_fails (scanned page (table (world s))) ∅
              (mkWorld (table (world s))
                       (requests (world s) ++ [ScanCommand None])
                       (calls (world s)) (clock (world s))) sid row e)
    as (sid' & row' & e' & Hin & He' & Hrun); [assumption | assumption |].
  exists sid', row', e'. split; [assumption|]. split; [assumption|].
  rewrite onReady_INITIALIZED by assumption. simpl.
  unfold all_paged, try_catch, bind, await, ret, client_scan_paged.
  rewrite (call_accepted fault _ _ _ Hscan). cbn [fst snd].
  rewrite scan_everything, Hrun. reflexivity.
Qed.

Lemma all_reports_a_corrupt_record_witness :
  let s := mkSys INITIALIZED [] w_corrupt in
  state s = INITIALIZED /\
  no_fault (ScanCommand None) = None /\
  ("sid", mkAttributes None None "garbled")
    ∈ scanned whole_table (table (world s)) /\
  JSON_parse "garbled" = inl SyntaxError /\
  exists sid' row' e',
    (sid', row') ∈ scanned whole_table (table (world s)) /\
    JSON_parse (session_data row') = inl e' /\
    calls (world (onReady (all_paged no_fault whole_table 1%nat) s)) =
      [(1%nat, [Err e'])].
Proof.
  intros s.
  assert (Hin : ("sid", mkAttributes None None "garbled")
                  ∈ scanned whole_table (table (world s)))
    by (vm_compute; left).
  split; [reflexivity|]. split; [reflexivity|]. split; [exact Hin|].
  split; [reflexivity|].
  exact (all_reports_a_corrupt_record (P := Login_payload) no_fault
           whole_table s 1%nat "sid" (mkAttributes None None "garbled")
           SyntaxError eq_refl eq_refl Hin eq_refl).
Defined.

(** X16.  In a record stored by [set], a TTL attribute is the second that
    holds the stored expiry: 1000 * expireTime_TTL <= expireTime <
    1000 * expireTime_TTL + 1000, also for instants before the epoch. *)
Theorem ttl_second_holds_the_expiry {P : Payload}
    (fault : Request -> option Error) (s : Sys) (sid : string)
    (session : SessionData) (callback : option nat) :
  state s = INITIALIZED ->
  (forall ex ttl,
     fault (UpdateCommand sid ex ttl (JSON_stringify session)) = None) ->
  exists row,
    table (world (onReady (set fault sid session callback) s)) !! sid =
      Some row /\
    forall ttl, expireTime_TTL row = Some ttl ->
      exists t, expireTime row = Some t /\
                (1000 * ttl <= t < 1000 * ttl + 1000)%Z.
Proof.
  intros Hs Hok. rewrite onReady_INITIALIZED by assumption. simpl.
  pose proof (set_accepted fault sid session callback undefined (world s))
    as Hset.
  cbv zeta in Hset. rewrite (Hset (Hok _ _)). clear Hset.
  eexists. split; [destruct callback; simpl; apply lookup_insert_eq|].
  cbn [expireTime_TTL expireTime]. intros ttl Httl.
  destruct (getTime_or_null _) as [t|]; simpl in Httl; [|discriminate].
  destruct (Z.eqb_spec t 0); [discriminate|].
  injection Httl as <-. exists t. split; [reflexivity|].
  pose proof (Z.div_mod t 1000 ltac:(lia)).
  pose proof (Z.mod_pos_bound t 1000 ltac:(lia)). lia.
Qed.

Lemma ttl_second_holds_the_expiry_witness :
  let s := mkSys INITIALIZED [] w0 in
  state s = INITIALIZED /\
  (forall ex ttl,
     no_fault (UpdateCommand "sid" ex ttl (JSON_stringify ann)) = None) /\
  exists row,
    table (world (onReady (set no_fault "sid" ann None) s)) !! "sid" =
      Some row /\
    forall ttl, expireTime_TTL row = Some ttl ->
      exists t, expireTime row = Some t /\
                (1000 * ttl <= t < 1000 * ttl + 1000)%Z.
Proof.
  intros s. split; [reflexivity|]. split; [intros ex ttl; reflexivity|].
  exact (ttl_second_holds_the_expiry (P := Login_payload) no_fault s "sid" ann
           None eq_refl (fun _ _ => eq_refl)).
Defined.

(** ** Provisioning *)

Section Provisioned.

Context {P : Payload}.
Variable TableName : string.
Variable svc : Service.

Lemma updateTableTTL_returns st :
  DescribeTimeToLive svc = inr st ->
  (ttl_is_off st = true -> UpdateTimeToLive svc = inr tt) ->
  updateTableTTL svc = Return tt.
Proof.
  intros Hst Hup. unfold updateTableTTL. rewrite Hst.
  destruct st as [[]|]; simpl in Hup; try reflexivity;
    now rewrite Hup.
Qed.

Lemma updateTableTTL_throws e :
  DescribeTimeToLive svc = inl e \/
  (exists st, DescribeTimeToLive svc = inr st /\ ttl_is_off st = true /\
              UpdateTimeToLive svc = inl e) ->
  updateTableTTL svc = Throw (Err e).
Proof.
  unfold updateTableTTL. intros [-> | (st & -> & Hoff & ->)]; [reflexivity|].
  destruct st as [[]|]; simpl in Hoff; try discriminate; reflexivity.
Qed.

End Provisioned.

(** X17.  For a table that exists, provisioning succeeds when the TTL
    description is answered and either native expiry is not off (no update
    is then needed: its answer does not matter) or the update enabling it is
    accepted; the store then becomes INITIALIZED. *)
Theorem existing_table_is_ready {P : Payload} (TableName : string)
    (svc : Service) (st : option TimeToLiveStatus) (w : World) :
  DescribeTable svc = inr tt ->
  DescribeTimeToLive svc = inr st ->
  (ttl_is_off st = true -> UpdateTimeToLive svc = inr tt) ->
  createTableIfNotExists TableName svc = Return tt /\
  provisioned (createTableIfNotExists TableName svc) (constructor w) =
    mkSys INITIALIZED [] w.
Proof.
  intros Hdescribe Hst Hup.
  assert (Hrun : createTableIfNotExists TableName svc = Return tt).
  { unfold createTableIfNotExists. rewrite Hdescribe.
    now rewrite (updateTableTTL_returns svc st). }
  split; [assumption|]. now rewrite Hrun.
Qed.

Lemma existing_table_is_ready_witness :
  DescribeTable ttl_enabled = inr tt /\
  DescribeTimeToLive ttl_enabled = inr (Some ENABLED) /\
  (ttl_is_off (Some ENABLED) = true -> UpdateTimeToLive ttl_enabled = inr tt) /\
  createTableIfNotExists "sessions" ttl_enabled = Return tt.
Proof.
  split; [reflexivity|]. split; [reflexivity|]. split; [discriminate|].
  exact (proj1 (existing_table_is_ready (P := Login_payload) "sessions"
                  ttl_enabled (Some ENABLED) w0 eq_refl eq_refl
                  ltac:(discriminate))).
Defined.

(** X18.  For a table that exists, an error of the TTL description, or of the
    TTL update when native expiry is off, is thrown by provisioning as it is;
    unless it is named ResourceNotFoundException, in which case the table is
    created and waited for as if it had been missing. *)
Theorem ttl_error_on_an_existing_table {P : Payload} (TableName : string)
    (svc : Service) (e : Error) :
  DescribeTable svc = inr tt ->
  DescribeTimeToLive svc = inl e \/
  (exists st, DescribeTimeToLive svc = inr st /\ ttl_is_off st = true /\
              UpdateTimeToLive svc = inl e) ->
  createTableIfNotExists TableName svc =
    if String.eqb (name e) "ResourceNotFoundException" then
      match CreateTable svc with
      | inl e' => Throw (Err e')
      | inr _ => outcome (waitUntilTableExists TableName svc None (entered svc))
      end
    else Throw (Err e).
Proof.
  intros Hdescribe Httl. unfold createTableIfNotExists.
  rewrite Hdescribe, (updateTableTTL_throws svc e Httl). reflexivity.
Qed.

Lemma ttl_error_on_an_existing_table_witness :
  DescribeTable ttl_update_denied = inr tt /\
  (exists st, DescribeTimeToLive ttl_update_denied = inr st /\
              ttl_is_off st = true /\
              UpdateTimeToLive ttl_update_denied = inl denied) /\
  createTableIfNotExists "sessions" ttl_update_denied = Throw (Err denied).
Proof.
  assert (Hoff : exists st, DescribeTimeToLive ttl_update_denied = inr st /\
                            ttl_is_off st = true /\
                            UpdateTimeToLive ttl_update_denied = inl denied)
    by (exists (Some DISABLED); repeat split).
  split; [reflexivity|]. split; [exact Hoff|].
  exact (ttl_error_on_an_existing_table (P := Login_payload) "sessions"
           ttl_update_denied denied eq_refl (or_intror Hoff)).
Defined.

(** X19.  An error of the first DescribeTable that is not named
    ResourceNotFoundException is thrown as it is; for a missing table, an
    error of CreateTable is thrown as it is; and whenever provisioning throws,
    the store is in state FAIL with an empty queue. *)
Theorem provisioning_errors_are_fatal {P : Payload} (TableName : string)
    (svc : Service) (e : Error) (s : Sys) :
  DescribeTable svc = inl e ->
  let run := createTableIfNotExists TableName svc in
  (name e <> "ResourceNotFoundException" -> run = Throw (Err e)) /\
  (name e = "ResourceNotFoundException" ->
   forall e', CreateTable svc = inl e' -> run = Throw (Err e')) /\
  (forall v, run = Throw v ->
     state (provisioned run s) = FAIL /\ onReadyPromises (provisioned run s) = []).
Proof.
  intros Hdescribe run. subst run. unfold createTableIfNotExists.
  rewrite Hdescribe. split; [|split].
  - intros Hname. apply String.eqb_neq in Hname. now rewrite Hname.
  - intros Hname e' Hcreate. now rewrite Hname, Hcreate.
  - intros v ->. split; reflexivity.
Qed.

Lemma provisioning_errors_are_fatal_witness :
  DescribeTable access_denied = inl denied /\
  createTableIfNotExists "sessions" access_denied = Throw (Err denied).
Proof.
  split; [reflexivity|].
  refine (proj1 (provisioning_errors_are_fatal (P := Login_payload)
                   "sessions" access_denied denied (constructor w0) eq_refl)
                _).
  simpl. discriminate.
Defined.

Section Waiting.

Context {P : Payload}.
Variable TableName : string.
Variable svc : Service.
Variable startTime : Z.

Lemma round_start_mono i j :
  (i <= j)%nat ->
  (round_start svc startTime i <= round_start svc startTime j)%Z.
Proof.
  induction 1 as [|j Hle IH]; [lia|].
  pose proof (round_start_step svc startTime j). lia.
Qed.

Lemma answers_exclusive r :
  (active r = true -> terminal r = false /\ polls_on r = false) /\
  (terminal r = true -> active r = false /\ polls_on r = false) /\
  (polls_on r = true -> active r = false /\ terminal r = false).
Proof. unfold polls_on. destruct r as [e|[]]; simpl; repeat split; congruence. Qed.

Lemma round_deterministic endTime i now r1 r2 :
  round TableName svc endTime i now r1 ->
  round TableName svc endTime i now r2 ->
  r1 = r2.
Proof.
  intros H1. revert r2.
  induction H1 as [i now Hlate | i now Hearly Hact | i now Hearly Hterm
                  | i now r Hearly Hon Hrun IH]; intros r2 H2;
    inversion H2; subst; try reflexivity; try lia; try (now apply IH);
    exfalso; unfold polls_on, active, terminal in *;
    destruct (reply (polls svc i)) as [e|[]]; simpl in *; congruence.
Qed.

Lemma round_reached endTime d i r :
  (forall j, (i <= j < i + d)%nat -> polls_on (reply (polls svc j)) = true) ->
  (round_start svc startTime (i + d) < endTime)%Z ->
  round TableName svc endTime (i + d) (round_start svc startTime (i + d)) r ->
  round TableName svc endTime i (round_start svc startTime i) r.
Proof.
  revert i. induction d as [|d IH]; intros i Hon Hearly Hrun.
  - now rewrite Nat.add_0_r in Hrun.
  - apply round_again.
    + pose proof (round_start_mono i (i + S d) ltac:(lia)). lia.
    + apply Hon. lia.
    + replace (i + S d)%nat with (S i + d)%nat in * by lia.
      apply (IH (S i)); [intros j Hj; apply Hon; lia | assumption | assumption].
Qed.

End Waiting.

(** X20.  [waitUntilTableExists], for any timeout: when the requests before
    the [k]-th are answered by an error or by a status that is neither active
    nor terminal, and round [k] starts before the deadline, the [k]-th answer
    decides: [ACTIVE] makes it return, a terminal status makes it throw, in
    both cases when that answer arrives and after [k + 1] requests.  Errors
    of the requests are retried, not thrown. *)
Theorem first_decisive_answer_ends_the_wait {P : Payload}
    (TableName : string) (svc : Service) (timeout : option Z)
    (startTime : Z) (k : nat) :
  (forall j, (j < k)%nat -> polls_on (reply (polls svc j)) = true) ->
  (round_start svc startTime k < startTime + default 6000 timeout)%Z ->
  let r := waitUntilTableExists TableName svc timeout startTime in
  (active (reply (polls svc k)) = true ->
   r = mkWaited (Return tt) (answered svc startTime k) (S k)) /\
  (terminal (reply (polls svc k)) = true ->
   r = mkWaited (Throw (timed_out TableName)) (answered svc startTime k) (S k)).
Proof.
  intros Hon Hearly r.
  assert (Hrun : round TableName svc (startTime + default 6000 timeout)%Z 0
                       startTime r)
    by apply waitUntilTableExists_loop_round.
  assert (Hreach : forall r',
            round TableName svc (startTime + default 6000 timeout)%Z k
                  (round_start svc startTime k) r' -> r = r').
  { intros r' Hr'. apply (round_deterministic TableName svc _ _ _ _ _ Hrun).
    apply (round_reached TableName svc startTime _ k 0 r');
      [intros j Hj; apply Hon; lia | assumption | assumption]. }
  split; intros Hk; apply Hreach; unfold answered.
  - now apply round_active.
  - now apply round_terminal.
Qed.

Lemma first_decisive_answer_ends_the_wait_witness :
  (forall j, (j < 2)%nat ->
             polls_on (reply (polls active_at_third j)) = true) /\
  (round_start active_at_third 0 2 < 0 + default 6000 None)%Z /\
  waitUntilTableExists "sessions" active_at_third None 0 =
    mkWaited (Return tt) 2066%Z 3%nat.
Proof.
  assert (Hon : forall j, (j < 2)%nat ->
                  polls_on (reply (polls active_at_third j)) = true).
  { intros j Hj. destruct j as [|[|j]]; [reflexivity | reflexivity | lia]. }
  split; [exact Hon|]. split; [reflexivity|].
  exact (proj1 (first_decisive_answer_ends_the_wait (P := Login_payload)
                  "sessions" active_at_third None 0 2 Hon eq_refl) eq_refl).
Defined.

(** X21.  When no answer is ever active or terminal, [waitUntilTableExists]
    throws its time-out error at the start of the first round that does not
    begin before the deadline: every round it ran began before the deadline,
    and the round at which it ends does not. *)
Theorem table_never_active_times_out {P : Payload}
    (TableName : string) (svc : Service) (timeout : option Z) (startTime : Z) :
  (forall j, polls_on (reply (polls svc j)) = true) ->
  let endTime := (startTime + default 6000 timeout)%Z in
  let r := waitUntilTableExists TableName svc timeout startTime in
  outcome r = Throw (timed_out TableName) /\
  (forall j, (j < sent r)%nat -> (round_start svc startTime j < endTime)%Z) /\
  (endTime <= round_start svc startTime (sent r))%Z /\
  finished r = round_start svc startTime (sent r).
Proof.
  intros Hon endTime r.
  destruct (waitUntilTableExists_spec TableName svc startTime timeout)
    as (Hbefore & _ & _ & _ & Hout).
  fold r endTime in Hbefore, Hout.
  destruct (outcome r) as [[]|v].
  - destruct Hout as (k & _ & Hact & _). exfalso.
    specialize (Hon k). unfold polls_on in Hon. rewrite Hact in Hon.
    discriminate Hon.
  - destruct Hout as [-> [(k & _ & Hterm & _) | (Hfin & Hend & _)]].
    + exfalso. specialize (Hon k). unfold polls_on in Hon.
      rewrite Hterm in Hon. destruct (active _); discriminate Hon.
    + split; [reflexivity|]. split; [exact Hbefore|].
      split; [now rewrite <- Hfin | assumption].
Qed.

Lemma table_never_active_times_out_witness :
  (forall j, polls_on (reply (polls creating_forever j)) = true) /\
  outcome (waitUntilTableExists "sessions" creating_forever None 0) =
    Throw (timed_out "sessions").
Proof.
  split; [intros j; reflexivity|].
  exact (proj1 (table_never_active_times_out (P := Login_payload) "sessions"
                  creating_forever None 0 (fun _ => eq_refl))).
Defined.

(** X22.  [waitUntilTableExists] with a timeout of zero or less sends no
    request and throws at once; with a positive timeout it sends at least one
    request and at most one per started second of the timeout. *)
Theorem wait_sends_as_many_requests_as_the_timeout_allows {P : Payload}
    (TableName : string) (svc : Service) (timeout : option Z) (startTime : Z) :
  let limit := default 6000%Z timeout in
  let r := waitUntilTableExists TableName svc timeout startTime in
  ((limit <= 0)%Z -> r = mkWaited (Throw (timed_out TableName)) startTime 0) /\
  ((0 < limit)%Z ->
   (1 <= sent r)%nat /\ (1000 * (Z.of_nat (sent r) - 1) < limit)%Z).
Proof.
  intros limit r.
  assert (Hrun : round TableName svc (startTime + limit)%Z 0 startTime r)
    by apply waitUntilTableExists_loop_round.
  destruct (waitUntilTableExists_spec TableName svc startTime timeout)
    as (_ & _ & Hbound & Hzero & Hout).
  fold r limit in Hbound, Hzero, Hout. split.
  - intros Hlimit. apply (round_deterministic TableName svc _ _ _ _ _ Hrun).
    apply round_deadline. lia.
  - intros Hlimit. destruct (sent r) as [|k] eqn:Hsent.
    + exfalso. specialize (Hzero eq_refl).
      destruct (outcome r) as [[]|v].
      * destruct Hout as (k & Hk & _). discriminate Hk.
      * destruct Hout as [_ [(k & Hk & _) | (_ & Hend & _)]];
          [discriminate Hk | lia].
    + destruct (Hbound k eq_refl) as [Hk _]. split; lia.
Qed.
